(** * Verification of [src/deploy.py]: the Pynecone-on-Spaces deploy script

    The script is embedded shallowly.  Python strings are lists of Unicode
    code points, [pathlib] paths are an anchor flag with a list of
    components, the local file system is a tree of directories, and the
    calls that leave the process (identity lookup, duplicate request,
    repository card, file download, commit) are answered by an oracle
    record.  [deploy] runs in a state-and-exception monad whose state is
    the local file system together with the log of everything the script
    asks of the outside world. *)

From Stdlib Require Import String Ascii List NArith ZArith Bool Lia.
Import ListNotations.

(** ** Python strings *)

(** A Python [str] is a sequence of code points. *)
Definition char := N.
Definition str := list char.

(** Code points of a literal of the source (all source literals but one
    emoji are ASCII). *)
Definition py (x : string) : str := map N_of_ascii (list_ascii_of_string x).

Definition dash : char := 45%N.
Definition newline : char := 10%N.
Definition slash : char := 47%N.
Definition comma : char := 44%N.
Definition underscore : char := 95%N.

Definition str_eqb (a b : str) : bool :=
  if list_eq_dec N.eq_dec a b then true else false.

(** [s.startswith(p)] *)
Fixpoint starts_with (p s : str) : bool :=
  match p, s with
  | [], _ => true
  | _ :: _, [] => false
  | a :: p', b :: s' => (a =? b)%N && starts_with p' s'
  end.

(** [p in s] for strings: some suffix of [s] starts with [p]. *)
Fixpoint contains (p s : str) : bool :=
  starts_with p s ||
  match s with
  | [] => false
  | _ :: s' => contains p s'
  end.

(** [sep.join(parts)] *)
Fixpoint join (sep : str) (parts : list str) : str :=
  match parts with
  | [] => []
  | [p] => p
  | p :: rest => p ++ sep ++ join sep rest
  end.

(** [s.split(sep)] for a non-empty separator: left to right, occurrences
    do not overlap.  [skip] counts the characters of a separator that was
    just recognised and still has to be consumed; [cur] is the current
    piece, reversed. *)
Fixpoint split_go (sep : str) (skip : nat) (cur : str) (s : str) : list str :=
  match s with
  | [] => [rev cur]
  | c :: s' =>
      match skip with
      | S k => split_go sep k cur s'
      | O =>
          if starts_with sep s
          then rev cur :: split_go sep (length sep - 1) [] s'
          else split_go sep 0 (c :: cur) s'
      end
  end.

Definition split (sep s : str) : list str := split_go sep 0 [] s.

(** [s.replace(old, new)] for a non-empty [old]. *)
Fixpoint replace_go (old new : str) (skip : nat) (s : str) : str :=
  match s with
  | [] => []
  | c :: s' =>
      match skip with
      | S k => replace_go old new k s'
      | O =>
          if starts_with old s
          then new ++ replace_go old new (length old - 1) s'
          else c :: replace_go old new 0 s'
      end
  end.

Definition replace (old new s : str) : str := replace_go old new 0 s.

(** ** The Unicode tables behind [\w] and [str.capitalize]

    Inside ASCII the classes are written out.  Outside ASCII they come
    from the interpreter's Unicode database, which is a parameter. *)
Record Unicode := {
  uni_isalnum : char -> bool;   (* alphabetic, decimal, digit or numeric *)
  uni_title : char -> str;      (* title-case mapping of one code point *)
  uni_lower : char -> str       (* lower-case mapping of one code point *)
}.

Definition is_ascii (c : char) : bool := (c <? 128)%N.
Definition is_upper (c : char) : bool := (65 <=? c)%N && (c <=? 90)%N.
Definition is_lower (c : char) : bool := (97 <=? c)%N && (c <=? 122)%N.
Definition is_digit (c : char) : bool := (48 <=? c)%N && (c <=? 57)%N.

Section Text.
Variable U : Unicode.

(** The class [\w] of a [str] pattern: alphanumeric or underscore. *)
Definition is_word (c : char) : bool :=
  if is_ascii c
  then is_upper c || is_lower c || is_digit c || (c =? underscore)%N
  else uni_isalnum U c.

Definition title_char (c : char) : str :=
  if is_ascii c then (if is_lower c then [c - 32] else [c])%N
  else uni_title U c.

Definition lower_char (c : char) : str :=
  if is_ascii c then (if is_upper c then [c + 32] else [c])%N
  else uni_lower U c.

(** [s.capitalize()] *)
Definition capitalize (s : str) : str :=
  match s with
  | [] => []
  | c :: rest => title_char c ++ flat_map lower_char rest
  end.

(** [re.sub(r"\W", "-", s)] *)
Definition sub_nonword (s : str) : str :=
  map (fun c => if is_word c then c else dash) s.

(** [re.sub(r"-+", "-", s)]: [prev] tells whether the previous
    character was a dash of the run being collapsed. *)
Fixpoint collapse_go (prev : bool) (s : str) : str :=
  match s with
  | [] => []
  | c :: s' =>
      if (c =? dash)%N
      then (if prev then collapse_go true s' else dash :: collapse_go true s')
      else c :: collapse_go false s'
  end.

Definition collapse_dashes (s : str) : str := collapse_go false s.

(** [s.lstrip("-")], [s.rstrip("-")] and [s.strip("-")] *)
Fixpoint lstrip_dash (s : str) : str :=
  match s with
  | [] => []
  | c :: s' => if (c =? dash)%N then lstrip_dash s' else s
  end.

Fixpoint rstrip_dash (s : str) : str :=
  match s with
  | [] => []
  | c :: s' =>
      match rstrip_dash s' with
      | [] => if (c =? dash)%N then [] else [c]
      | r => c :: r
      end
  end.

Definition strip_dash (s : str) : str := rstrip_dash (lstrip_dash s).

(** Line 50:
    [re.sub(r"-+", "-", re.sub(r"\W", "-", app_name)).strip("-")] *)
Definition curated_app_name (app_name : str) : str :=
  strip_dash (collapse_dashes (sub_nonword app_name)).

End Text.

(** The properties a slug is meant to have. *)
Fixpoint has_double_dash (s : str) : bool :=
  match s with
  | a :: (b :: _) as t => ((a =? dash)%N && (b =? dash)%N) || has_double_dash t
  | _ => false
  end.

Definition starts_with_dash (s : str) : bool :=
  match s with
  | c :: _ => (c =? dash)%N
  | [] => false
  end.

Definition ends_with_dash (s : str) : bool :=
  match rev s with
  | c :: _ => (c =? dash)%N
  | [] => false
  end.


(** A database that knows nothing beyond ASCII; the examples below only
    use ASCII text, on which every database agrees. *)
Definition ascii_only : Unicode :=
  {| uni_isalnum := fun _ => false;
     uni_title := fun c => [c];
     uni_lower := fun c => [c] |}.

(** [s.encode()]: UTF-8.  Surrogates and values past U+10FFFF cannot be
    encoded. *)
Definition byte := N.
Definition bytes := list byte.

Definition utf8_char (c : char) : option bytes :=
  (if c <? 128 then Some [c]
   else if c <? 2048 then Some [192 + c / 64; 128 + c mod 64]
   else if (55296 <=? c) && (c <=? 57343) then None
   else if c <? 65536 then
     Some [224 + c / 4096; 128 + (c / 64) mod 64; 128 + c mod 64]
   else if c <? 1114112 then
     Some [240 + c / 262144; 128 + (c / 4096) mod 64;
           128 + (c / 64) mod 64; 128 + c mod 64]
   else None)%N.

Fixpoint utf8 (s : str) : option bytes :=
  match s with
  | [] => Some []
  | c :: s' =>
      match utf8_char c, utf8 s' with
      | Some b, Some bs => Some (b ++ bs)
      | _, _ => None
      end
  end.

(** ** The regular expression of line 28

    [re.search(r"app_name=[\"'](?P<app_name>.+)[\"'],", text)]: the
    literal [app_name=], one quote character, a greedy non-empty run of
    characters other than a line break, one quote character, a comma. *)
Definition dquote : char := 34%N.
Definition squote : char := 39%N.
Definition is_quote (c : char) : bool := (c =? dquote)%N || (c =? squote)%N.

Definition key_literal : str := py "app_name=".

(** Number of leading characters [.] can match. *)
Fixpoint line_prefix_len (s : str) : nat :=
  match s with
  | [] => 0
  | c :: s' => if (c =? newline)%N then 0 else S (line_prefix_len s')
  end.

(** Backtracking of the greedy [.+] over [r]: lengths [k], [k-1], ..., 1
    are tried in that order; length [k] is accepted when a quote and a
    comma follow. *)
Fixpoint backtrack (r : str) (k : nat) : option str :=
  match k with
  | O => None
  | S k' =>
      match skipn k r with
      | q :: c :: _ =>
          if is_quote q && (c =? comma)%N then Some (firstn k r)
          else backtrack r k'
      | _ => backtrack r k'
      end
  end.

(** Whether a quote and a comma follow the first [k] characters of [r]. *)
Definition accepts (r : str) (k : nat) : bool :=
  match skipn k r with
  | q :: c :: _ => is_quote q && (c =? comma)%N
  | _ => false
  end.

(** The pattern anchored at the start of [s]. *)
Definition match_here (s : str) : option str :=
  if starts_with key_literal s then
    match skipn (length key_literal) s with
    | q :: r => if is_quote q then backtrack r (line_prefix_len r) else None
    | [] => None
    end
  else None.

(** [re.search]: the leftmost position where the pattern matches; the
    result is the group [app_name]. *)
Fixpoint search_app_name (s : str) : option str :=
  match match_here s with
  | Some g => Some g
  | None =>
      match s with
      | [] => None
      | _ :: s' => search_app_name s'
      end
  end.

(** ** Paths ([pathlib], POSIX flavour)

    A path is its anchor (absolute or not) and its components.  A leading
    double slash is read as the root, as the kernel does. *)
Record path := { is_abs : bool; parts : list str }.

Definition is_nil {A} (l : list A) : bool :=
  match l with [] => true | _ => false end.

Definition dot : str := py ".".
Definition dotdot : str := py "..".

(** [Path(s)]: split at slashes, drop empty components and [.] *)
Definition Path (s : str) : path :=
  {| is_abs := starts_with [slash] s;
     parts := filter (fun c => negb (is_nil c) && negb (str_eqb c dot))
                     (split [slash] s) |}.

(** [p / s] *)
Definition joinpath (p : path) (s : str) : path :=
  let q := Path s in
  if is_abs q then q
  else {| is_abs := is_abs p; parts := parts p ++ parts q |}.

(** [p.parent] *)
Definition parent (p : path) : path :=
  {| is_abs := is_abs p; parts := removelast (parts p) |}.

(** [str(p)] *)
Definition path_str (p : path) : str :=
  if is_abs p then slash :: join [slash] (parts p)
  else if is_nil (parts p) then dot
  else join [slash] (parts p).

Fixpoint strip_prefix (pre l : list str) : option (list str) :=
  match pre, l with
  | [], _ => Some l
  | _ :: _, [] => None
  | a :: pre', b :: l' => if str_eqb a b then strip_prefix pre' l' else None
  end.

(** [p.relative_to(base)]; [None] stands for the [ValueError] pathlib
    raises when [base] is not a prefix of [p]. *)
Definition relative_to (p base : path) : option path :=
  if Bool.eqb (is_abs p) (is_abs base) then
    match strip_prefix (parts base) (parts p) with
    | Some rest => Some {| is_abs := false; parts := rest |}
    | None => None
    end
  else None.

(** Lexical normalisation, which is what [resolve()] does on a file
    system without symbolic links: [..] removes the component before it
    and is dropped at the root. *)
Fixpoint normalize (acc : list str) (cs : list str) : list str :=
  match cs with
  | [] => rev acc
  | c :: cs' =>
      if str_eqb c dotdot then normalize (tl acc) cs'
      else normalize (c :: acc) cs'
  end.

(** [p.resolve()] in the working directory [cwd] (components of an
    absolute path). *)
Definition resolve (cwd : list str) (p : path) : path :=
  {| is_abs := true;
     parts := normalize [] (if is_abs p then parts p else cwd ++ parts p) |}.

(** ** The local file system *)
#[warnings="-register-all"] Inductive node :=
| File (content : str)
| Dir (entries : list (str * node)).

Fixpoint assoc (name : str) (es : list (str * node)) : option node :=
  match es with
  | [] => None
  | (n, x) :: es' => if str_eqb n name then Some x else assoc name es'
  end.

(** Path lookup as the kernel does it, component by component; [up] holds
    the directories above the current one, nearest first. *)
Fixpoint walk (up : list node) (cur : node) (cs : list str) : option node :=
  match cs with
  | [] => Some cur
  | c :: cs' =>
      match cur with
      | File _ => None
      | Dir es =>
          if str_eqb c dotdot then
            match up with
            | [] => walk [] cur cs'
            | p :: up' => walk up' p cs'
            end
          else
            match assoc c es with
            | Some x => walk (cur :: up) x cs'
            | None => None
            end
      end
  end.

Definition lookup (root : node) (cwd : list str) (p : path) : option node :=
  walk [] root (if is_abs p then parts p else cwd ++ parts p).

Definition fs_is_file (root : node) (cwd : list str) (p : path) : bool :=
  match lookup root cwd p with
  | Some (File _) => true
  | _ => false
  end.

Definition fs_is_dir (root : node) (cwd : list str) (p : path) : bool :=
  match lookup root cwd p with
  | Some (Dir _) => true
  | _ => false
  end.

(** Everything below a directory, as [glob("**/*")] enumerates it: the
    entries of the directory, then the same for each sub-directory in
    turn.  Paths are relative to the directory. *)
Fixpoint descendants (n : node) : list (list str) :=
  match n with
  | File _ => []
  | Dir es =>
      map (fun e => [fst e]) es ++
      flat_map (fun e => map (cons (fst e)) (descendants (snd e))) es
  end.

(** [p.glob("**/*")] *)
Definition glob_all (root : node) (cwd : list str) (p : path) : list path :=
  match lookup root cwd p with
  | Some (Dir es) =>
      map (fun rel => {| is_abs := is_abs p; parts := parts p ++ rel |})
          (descendants (Dir es))
  | _ => []
  end.

(** Writing a file at an absolute location, creating the directories on
    the way (what a download into the cache does). *)
Fixpoint put_entry (name : str) (f : option node -> node)
         (es : list (str * node)) : list (str * node) :=
  match es with
  | [] => [(name, f None)]
  | (n, x) :: es' =>
      if str_eqb n name then (n, f (Some x)) :: es'
      else (n, x) :: put_entry name f es'
  end.

Fixpoint write_file (cs : list str) (content : str) (n : option node) : node :=
  match cs with
  | [] => File content
  | c :: cs' =>
      let es := match n with Some (Dir es) => es | _ => [] end in
      Dir (put_entry c (write_file cs' content) es)
  end.

(** ** Commit operations ([huggingface_hub]) *)

(** What a [CommitOperationAdd] uploads: bytes held in memory, or the
    local file at a path. *)
Inductive payload :=
| Bytes (data : bytes)
| LocalFile (p : path).

Inductive operation :=
| Add (path_in_repo : str) (path_or_fileobj : payload)
| Delete (path_in_repo : str) (is_folder : bool).

(** ** Repository cards *)
Record RepoCard := { card_data : list (str * str); card_text : str }.

Fixpoint set_key (k v : str) (d : list (str * str)) : list (str * str) :=
  match d with
  | [] => [(k, v)]
  | (k', v') :: d' =>
      if str_eqb k' k then (k', v) :: d' else (k', v') :: set_key k v d'
  end.

Definition set_title (t : str) (c : RepoCard) : RepoCard :=
  {| card_data := set_key (py "title") t (card_data c);
     card_text := card_text c |}.

Definition set_text (t : str) (c : RepoCard) : RepoCard :=
  {| card_data := card_data c; card_text := t |}.

(** ** Exceptions, the outside world, the log *)
Inductive exn :=
| ValueError (msg : str)
| UnboundLocalError (variable : str)
| FileNotFoundError (file : str)
| UnicodeEncodeError
| External (what : str).   (* raised inside [requests] or [huggingface_hub] *)

Definition result (A : Type) : Type := (exn + A)%type.

(** The collaborators that are not part of the script.  Each answer is a
    function of the request. *)
Record World := {
  unicode : Unicode;
  cwd : list str;
  (* [whoami(token)["name"]] *)
  whoami_reply : option str -> result str;
  (* status code of the duplicate request for a repository id *)
  duplicate_reply : str -> bool -> option str -> result Z;
  (* content of a file of a Space *)
  download_reply : str -> str -> option str -> result str;
  (* where [hf_hub_download] leaves that file: components of an absolute
     path inside the cache directory *)
  cache_path : str -> str -> list str;
  (* parsing the metadata block of a card, and printing it *)
  card_parse : str -> result RepoCard;
  card_yaml : list (str * str) -> str;
  (* answer of [create_commit] *)
  commit_reply : str -> str -> list operation -> option str -> result unit
}.

Inductive event :=
| Print (line : str)
| Whoami (token : option str)
| PostDuplicate (repository : str) (private : bool) (token : option str)
| Download (repo_id filename : str) (token : option str)
| NewOperation (op : operation)
| CreateCommit (repo_id message : str) (operations : list operation)
               (token : option str).

(** The state of a run: the local file system and what happened so far. *)
Record state := { fs : node; log : list event }.

Definition M (A : Type) : Type := state -> state * result A.

Definition ret {A} (a : A) : M A := fun st => (st, inr a).

Definition raise {A} (e : exn) : M A := fun st => (st, inl e).

Definition bind {A B} (m : M A) (k : A -> M B) : M B :=
  fun st =>
    match m st with
    | (st', inl e) => (st', inl e)
    | (st', inr a) => k a st'
    end.

Notation "x <- c1 ;; c2" := (bind c1 (fun x => c2))
  (at level 61, c1 at next level, right associativity).
Notation "c1 ;; c2" := (bind c1 (fun _ => c2))
  (at level 61, right associativity).

Definition emit (e : event) : M unit :=
  fun st => ({| fs := fs st; log := log st ++ [e] |}, inr tt).

Definition lift {A} (r : result A) : M A := fun st => (st, r).

Definition get_fs : M node := fun st => (st, inr (fs st)).

Definition print (line : str) : M unit := emit (Print line).

(** The two console lines of lines 90 and 94-96. *)
Definition found_locally : str :=
  py "  README.md file found locally. Adding it to the Space.".

Definition not_found_locally : str :=
  py "  README.md file not found locally. Adapting the existing remote one.".

Section Deploy.
Variable w : World.

Definition is_file (p : path) : M bool :=
  root <- get_fs ;; ret (fs_is_file root (cwd w) p).

Definition is_dir (p : path) : M bool :=
  root <- get_fs ;; ret (fs_is_dir root (cwd w) p).

(** [p.read_text()] *)
Definition read_text (p : path) : M str :=
  root <- get_fs ;;
  match lookup root (cwd w) p with
  | Some (File content) => ret content
  | _ => raise (FileNotFoundError (path_str p))
  end.

(** [p.glob("**/*")], enumerated when the loop starts *)
Definition glob (p : path) : M (list path) :=
  root <- get_fs ;; ret (glob_all root (cwd w) p).

(** [s.encode()] *)
Definition encode (s : str) : M bytes :=
  match utf8 s with
  | Some b => ret b
  | None => raise UnicodeEncodeError
  end.

(** [hf_hub_download(repo_id, repo_type="space", filename, token)]:
    the file is fetched, stored in the local cache, and the path of the
    stored copy is returned. *)
Definition hf_hub_download (repo_id filename : str) (token : option str)
  : M path :=
  emit (Download repo_id filename token) ;;
  content <- lift (download_reply w repo_id filename token) ;;
  let dest := cache_path w repo_id filename in
  (fun st =>
     ({| fs := write_file dest content (Some (fs st)); log := log st |},
      inr {| is_abs := true; parts := dest |})).

(** [RepoCard.load(repo_id_or_path, repo_type="space", token)]: a local
    file of that name wins, otherwise the card is the README.md of the
    repository. *)
Definition RepoCard_load (repo_id_or_path : str) (token : option str)
  : M RepoCard :=
  local <- is_file (Path repo_id_or_path) ;;
  card_path <- (if local then ret (Path repo_id_or_path)
                else hf_hub_download repo_id_or_path (py "README.md") token) ;;
  content <- read_text card_path ;;
  lift (card_parse w content).

(** [card.content] *)
Definition card_content (c : RepoCard) : str :=
  py "---" ++ [newline] ++ card_yaml w (card_data c) ++ [newline]
  ++ py "---" ++ [newline] ++ card_text c.

(** [operations.append(op)] for a freshly built operation *)
Definition append_op (ops : list operation) (op : operation)
  : M (list operation) :=
  emit (NewOperation op) ;; ret (ops ++ [op]).

(** [response.raise_for_status()] raises for 4xx and 5xx. *)
Definition is_http_error (status : Z) : bool :=
  (400 <=? status)%Z && (status <? 600)%Z.

Definition template_url : str :=
  py "https://huggingface.co/spaces/Wauplin/pynecone-on-spaces-template".

Definition hugging_face : char := 129303%N.

(** Lines 97-105, the README written when none is found locally. *)
Definition basic_readme (app_name : str) : str :=
  py "## " ++ [hugging_face] ++ py " Spaces x Pynecone"
  ++ [newline; newline] ++ py "This "
  ++ py " " ++ join (py " ")
                    (map (capitalize (unicode w)) (split (py "_|-") app_name))
  ++ py " Space has been duplicated from the [Pynecone on Spaces"
  ++ py " template](" ++ template_url ++ py ")."
  ++ [newline; newline]
  ++ py "To host and deploy your own Pynecone app on " ++ [hugging_face]
  ++ py " Spaces, check out [the"
  ++ py " instructions](" ++ template_url ++ py "/blob/main/README.md).".

(** Lines 88-105: the body text of the card. *)
Definition readme_text (app_name : str) : M str :=
  found <- is_file (Path (py "README.md")) ;;
  if found then
    print found_locally ;;
    local <- RepoCard_load (py "README.md") None ;;
    ret (card_text local)
  else
    print not_found_locally ;;
    ret (basic_readme app_name).

(** Lines 81-108. *)
Definition setup_readme (repo_id curated app_name : str)
           (token : option str) (ops : list operation)
  : M (list operation) :=
  card <- RepoCard_load repo_id token ;;
  let card :=
    set_title (join (py " ")
                    (map (capitalize (unicode w)) (split [dash] curated)))
              card in
  text <- readme_text app_name ;;
  let card := set_text text card in
  data <- encode (card_content card) ;;
  append_op ops (Add (py "README.md") (Bytes data)).

(** Lines 110-130. *)
Definition setup_pcconfig (repo_id app_name space_url_embed : str)
           (token : option str) (ops : list operation)
  : M (list operation) :=
  print (py "  Setup pcconfig.py") ;;
  p <- hf_hub_download repo_id (py "pcconfig_docker.py") token ;;
  text <- read_text p ;;
  let pcconfig_content :=
    replace (py "https://wauplin-pynecone-on-spaces-template.hf.space/pynecone-backend")
            (space_url_embed ++ py "/pynecone-backend")
            (replace (py "default_app") app_name text) in
  data <- encode pcconfig_content ;;
  append_op ops (Add (py "pcconfig_docker.py") (Bytes data)).

(** Lines 132-146. *)
Definition setup_dockerfile (repo_id app_name : str)
           (token : option str) (ops : list operation)
  : M (list operation) :=
  print (py "  Setup Dockerfile") ;;
  p <- hf_hub_download repo_id (py "Dockerfile") token ;;
  text <- read_text p ;;
  data <- encode (replace (py "default_app") app_name text) ;;
  append_op ops (Add (py "Dockerfile") (Bytes data)).

(** Lines 80-146: the operations of a first deploy. *)
Definition setup_new (repo_id curated app_name space_url_embed : str)
           (token : option str) (ops : list operation)
  : M (list operation) :=
  ops <- setup_readme repo_id curated app_name token ops ;;
  ops <- setup_pcconfig repo_id app_name space_url_embed token ops ;;
  setup_dockerfile repo_id app_name token ops.

(** The two upload loops (lines 165-171 and 179-185): every path of the
    traversal that is a file and passes [keep] is added under its name
    relative to [base]. *)
Fixpoint sync_loop (base : path) (keep : path -> bool) (paths : list path)
         (ops : list operation) : M (list operation) :=
  match paths with
  | [] => ret ops
  | p :: rest =>
      f <- is_file p ;;
      if f && keep p then
        match relative_to p base with
        | Some rel =>
            ops <- append_op ops (Add (path_str rel) (LocalFile p)) ;;
            sync_loop base keep rest ops
        | None =>
            raise (ValueError (path_str p ++ py " is not in the subpath of "
                               ++ path_str base))
        end
      else sync_loop base keep rest ops
  end.

Definition not_cache (p : path) : bool :=
  negb (contains (py "__pycache__") (path_str p)).

(** Lines 152-185.  [CommitOperationDelete("requirements.txt")] leaves
    [is_folder] to its default, which is false for a name that does not
    end with a slash. *)
Definition sync (app_name : str) (app_path assets_path : path)
           (is_new : bool) (ops : list operation) : M (list operation) :=
  let requirements_path := joinpath (parent app_path) (py "requirements.txt") in
  found <- is_file requirements_path ;;
  ops <- (if found then
            print (py "  Sync requirements.txt") ;;
            ops <- append_op ops (Delete (py "requirements.txt") false) ;;
            append_op ops (Add (py "requirements.txt") (LocalFile requirements_path))
          else
            print (py "  requirements.txt not found") ;; ret ops) ;;
  print (py "  Sync assets/ folder") ;;
  ops <- append_op ops (Delete (py "assets") true) ;;
  paths <- glob assets_path ;;
  ops <- sync_loop (parent assets_path) (fun _ => true) paths ops ;;
  print (py "  Sync app folder") ;;
  ops <- append_op ops
           (Delete (if is_new then py "default_app" else app_name) true) ;;
  paths <- glob app_path ;;
  sync_loop (parent app_path) not_cache paths ops.

(** [create_commit(repo_id, repo_type="space", commit_message,
    operations, token)] *)
Definition create_commit (repo_id message : str) (ops : list operation)
           (token : option str) : M unit :=
  emit (CreateCommit repo_id message ops token) ;;
  lift (commit_reply w repo_id message ops token).

(** Lines 58-72.  The result is the local variable [is_new]: [None]
    when neither branch assigned it. *)
Definition provision (repo_id space_url : str) (private : bool)
           (token : option str) : M (option bool) :=
  emit (PostDuplicate repo_id private token) ;;
  status <- lift (duplicate_reply w repo_id private token) ;;
  if is_http_error status then
    if (status =? 409)%Z then
      print (py "Space already exist: " ++ space_url) ;; ret (Some false)
    else ret None
  else
    print (py "New Space created: " ++ space_url) ;; ret (Some true).

(** Lines 74-199, from the first read of [is_new] on. *)
Definition push (is_new : option bool) (repo_id curated app_name
                 space_url_embed : str) (app_path assets_path : path)
           (token : option str) : M unit :=
  match is_new with
  | None => raise (UnboundLocalError (py "is_new"))
  | Some new =>
      ops <- (if new then
                setup_new repo_id curated app_name space_url_embed token []
              else
                print (py "  Space already configured. Do not update README.md, Dockerfile and pcconfig.py") ;;
                ret []) ;;
      ops <- sync app_name app_path assets_path new ops ;;
      create_commit repo_id
        (if new then py "Deploy " ++ app_name ++ py "!"
         else py "Update " ++ app_name)
        ops token ;;
      print (py "Your app has been successfully deployed!") ;;
      print (py "Check it out: " ++ space_url_embed)
  end.

(** [deploy(pcconfig_path, private, token)] *)
Definition deploy (pcconfig_path : str) (private : bool)
           (token : option str) : M unit :=
  let pcconfig_path := resolve (cwd w) (Path pcconfig_path) in
  found <- is_file pcconfig_path ;;
  if negb found then
    raise (ValueError (py "Could not find pcconfig file at "
                       ++ path_str pcconfig_path))
  else
  text <- read_text pcconfig_path ;;
  match search_app_name text with
  | None =>
      raise (ValueError (py "Could not find app_name in "
                         ++ path_str pcconfig_path))
  | Some app_name =>
      let app_path := joinpath (parent pcconfig_path) app_name in
      found <- is_dir app_path ;;
      if negb found then
        raise (ValueError (py "Could not find app folder at "
                           ++ path_str app_path))
      else
      let assets_path := joinpath (parent pcconfig_path) (py "assets") in
      found <- is_dir assets_path ;;
      if negb found then
        raise (ValueError (py "Could not find assets folder at "
                           ++ path_str assets_path))
      else
      emit (Whoami token) ;;
      username <- lift (whoami_reply w token) ;;
      let curated := curated_app_name (unicode w) app_name in
      let repo_id := username ++ [slash] ++ curated in
      print (py "Repo ID: " ++ repo_id) ;;
      let space_url := py "https://huggingface.co/spaces/" ++ repo_id in
      let space_url_embed :=
        py "https://" ++ username ++ [dash] ++ curated ++ py ".hf.space" in
      is_new <- provision repo_id space_url private token ;;
      push is_new repo_id curated app_name space_url_embed
           app_path assets_path token
  end.

End Deploy.

(** A run from an empty log. *)
Definition run (w : World) (pcconfig_path : str) (private : bool)
           (token : option str) (root : node) : state * result unit :=
  deploy w pcconfig_path private token {| fs := root; log := [] |}.

(** ** Reading the outcome of a run *)

(** The paths and names [deploy] derives from its inputs. *)
Definition config_path (w : World) (pcconfig_path : str) : path :=
  resolve (cwd w) (Path pcconfig_path).

Definition config_dir (w : World) (pcconfig_path : str) : path :=
  parent (config_path w pcconfig_path).

Definition app_path_of (w : World) (pcconfig_path app_name : str) : path :=
  joinpath (config_dir w pcconfig_path) app_name.

Definition assets_path_of (w : World) (pcconfig_path : str) : path :=
  joinpath (config_dir w pcconfig_path) (py "assets").

Definition requirements_path_of (w : World) (pcconfig_path app_name : str)
  : path :=
  joinpath (parent (app_path_of w pcconfig_path app_name))
           (py "requirements.txt").

Definition repo_id_of (w : World) (username app_name : str) : str :=
  username ++ [slash] ++ curated_app_name (unicode w) app_name.

Definition space_url_of (w : World) (username app_name : str) : str :=
  py "https://huggingface.co/spaces/" ++ repo_id_of w username app_name.

Definition space_url_embed_of (w : World) (username app_name : str) : str :=
  py "https://" ++ username ++ [dash]
  ++ curated_app_name (unicode w) app_name ++ py ".hf.space".

(** The run passes the four checks of lines 25-43 with [app_name]
    extracted, the identity lookup answers [username], and the duplicate
    request is answered with [status]. *)
Definition reaches_provision (w : World) (pcconfig_path : str)
           (private : bool) (token : option str) (root : node)
           (app_name username : str) (status : Z) : Prop :=
  (exists text,
      lookup root (cwd w) (config_path w pcconfig_path) = Some (File text)
      /\ search_app_name text = Some app_name)
  /\ fs_is_dir root (cwd w) (app_path_of w pcconfig_path app_name) = true
  /\ fs_is_dir root (cwd w) (assets_path_of w pcconfig_path) = true
  /\ whoami_reply w token = inr username
  /\ duplicate_reply w (repo_id_of w username app_name) private token
     = inr status.

(** The log when the duplicate request has been answered. *)
Definition provision_log (w : World) (private : bool) (token : option str)
           (username app_name : str) (status : Z) : list event :=
  [Whoami token;
   Print (py "Repo ID: " ++ repo_id_of w username app_name);
   PostDuplicate (repo_id_of w username app_name) private token]
  ++ (if is_http_error status then
        if (status =? 409)%Z then
          [Print (py "Space already exist: " ++ space_url_of w username app_name)]
        else []
      else
        [Print (py "New Space created: " ++ space_url_of w username app_name)]).

(** Properties of a computation, in the style of Hoare triples: what it
    may append to the log, where it may write. *)
Definition emits {A} (P : event -> Prop) (m : M A) : Prop :=
  forall st st' r, m st = (st', r) ->
    exists evs, log st' = log st ++ evs /\ Forall P evs.

Definition keeps_fs {A} (m : M A) : Prop :=
  forall st st' r, m st = (st', r) -> fs st' = fs st.

Definition is_new_operation (e : event) : bool :=
  match e with NewOperation _ => true | _ => false end.

Definition is_create_commit (e : event) : bool :=
  match e with CreateCommit _ _ _ _ => true | _ => false end.

(** The value the local variable [is_new] has after lines 65-72. *)
Definition is_new_after (status : Z) : option bool :=
  if is_http_error status then
    if (status =? 409)%Z then Some false else None
  else Some true.


Definition op_eqb_delete (name : str) (folder : bool) (op : operation) : bool :=
  match op with
  | Delete p f => str_eqb p name && Bool.eqb f folder
  | _ => false
  end.

(** How many times [Delete(name, is_folder=folder)] occurs in a list. *)
Definition count_delete (name : str) (folder : bool) (ops : list operation)
  : nat :=
  length (filter (op_eqb_delete name folder) ops).

(** The last component of a path, as a list of at most one element. *)
Definition last_part (cs : list str) : list str :=
  match cs with
  | [] => []
  | _ => [last cs []]
  end.

(** The [Add] operations one upload loop produces for the directory [dir]
    of the file system [root]: one per traversed path that is a file and
    passes [keep], named after the path relative to the parent of [dir]. *)
Definition loop_adds (root : node) (cwd : list str) (keep : path -> bool)
           (dir : path) : list operation :=
  flat_map
    (fun p =>
       if fs_is_file root cwd p && keep p then
         [Add (path_str {| is_abs := false;
                           parts := skipn (length (removelast (parts dir)))
                                          (parts p) |})
              (LocalFile p)]
       else [])
    (glob_all root cwd dir).

(** The operations of lines 152-185. *)
Definition sync_ops (root : node) (cwd : list str) (app_name : str)
           (app_path assets_path : path) (is_new : bool) : list operation :=
  let requirements_path := joinpath (parent app_path) (py "requirements.txt") in
  (if fs_is_file root cwd requirements_path then
     [Delete (py "requirements.txt") false;
      Add (py "requirements.txt") (LocalFile requirements_path)]
   else [])
  ++ Delete (py "assets") true
     :: loop_adds root cwd (fun _ => true) assets_path
  ++ Delete (if is_new then py "default_app" else app_name) true
     :: loop_adds root cwd not_cache app_path.

(** A folder name: one component, not empty, without a slash, and
    neither [.] nor [..]. *)
Definition folder_name (s : str) : bool :=
  negb (is_nil s) && negb (existsb (N.eqb slash) s)
  && negb (str_eqb s dot) && negb (str_eqb s dotdot).


(** The text [app_name=<q1><name><q2>] the specification calls an
    assignment, and the same followed by a comma. *)
Definition assignment (q1 : char) (name : str) (q2 : char) : str :=
  key_literal ++ q1 :: name ++ [q2].

Definition occurs (p s : str) : Prop := exists a b, s = a ++ p ++ b.

(** The rest of the line that starts at [s]. *)
Fixpoint rest_of_line (s : str) : str :=
  match s with
  | [] => []
  | c :: s' => if (c =? newline)%N then [] else c :: rest_of_line s'
  end.

(** What lines 152-185 append to the log. *)
Definition sync_events (root : node) (cwd : list str) (app_name : str)
           (app_path assets_path : path) (is_new : bool) : list event :=
  let requirements_path := joinpath (parent app_path) (py "requirements.txt") in
  (if fs_is_file root cwd requirements_path then
     [Print (py "  Sync requirements.txt");
      NewOperation (Delete (py "requirements.txt") false);
      NewOperation (Add (py "requirements.txt") (LocalFile requirements_path))]
   else [Print (py "  requirements.txt not found")])
  ++ [Print (py "  Sync assets/ folder");
      NewOperation (Delete (py "assets") true)]
  ++ map NewOperation (loop_adds root cwd (fun _ => true) assets_path)
  ++ [Print (py "  Sync app folder");
      NewOperation (Delete (if is_new then py "default_app" else app_name) true)]
  ++ map NewOperation (loop_adds root cwd not_cache app_path).

Definition commit_message_of (is_new : bool) (app_name : str) : str :=
  if is_new then py "Deploy " ++ app_name ++ py "!"
  else py "Update " ++ app_name.

(** The rest of a run once the operations [setup] of lines 80-150 are
    there: lines 152-199. *)
Definition after_setup (w : World) (is_new : bool)
           (repo_id app_name space_url_embed : str)
           (app_path assets_path : path) (token : option str)
           (setup : list operation) (st : state) : state * result unit :=
  let ops :=
    setup ++ sync_ops (fs st) (cwd w) app_name app_path assets_path is_new in
  let msg := commit_message_of is_new app_name in
  let reply := commit_reply w repo_id msg ops token in
  ({| fs := fs st;
      log := log st
             ++ sync_events (fs st) (cwd w) app_name app_path assets_path is_new
             ++ CreateCommit repo_id msg ops token
                :: match reply with
                   | inr _ => [Print (py "Your app has been successfully deployed!");
                               Print (py "Check it out: " ++ space_url_embed)]
                   | inl _ => []
                   end |},
   reply).

(** The three operations of a first deploy, for some contents. *)
Definition setup_operations (setup : list operation) : Prop :=
  exists d1 d2 d3,
    setup = [Add (py "README.md") (Bytes d1);
             Add (py "pcconfig_docker.py") (Bytes d2);
             Add (py "Dockerfile") (Bytes d3)].

(** What is known of a run whose log holds
    [CreateCommit repo_id message ops tok]. *)
Definition committed_by (w : World) (pcconfig_path : str) (private : bool)
           (token : option str) (root : node) (st' : state)
           (repo_id message : str) (ops : list operation) (tok : option str)
           (app_name username : str) (status : Z) (is_new : bool)
           (setup : list operation) : Prop :=
  reaches_provision w pcconfig_path private token root app_name username status
  /\ is_new_after status = Some is_new
  /\ repo_id = repo_id_of w username app_name
  /\ tok = token
  /\ message = commit_message_of is_new app_name
  /\ ops = setup ++ sync_ops (fs st') (cwd w) app_name
                            (app_path_of w pcconfig_path app_name)
                            (assets_path_of w pcconfig_path) is_new
  /\ (if is_new then setup_operations setup else setup = [] /\ fs st' = root)
  /\ filter is_create_commit (log st')
     = [CreateCommit repo_id message ops tok].

(** The events that lines 80-185 may produce: console lines, downloads
    and new operations. *)
Definition setup_event (e : event) : Prop :=
  match e with
  | Print _ | Download _ _ _ | NewOperation _ => True
  | _ => False
  end.



(** ** A concrete project, for the examples

    The layout of the end-to-end scenario: a project directory with the
    config file, the app folder and the assets folder. *)
Module Example.

Definition config_text (app_name : str) : str :=
  py "import pynecone as pc" ++ [newline; newline]
  ++ py "config = pc.Config(" ++ [newline]
  ++ py "    app_name=" ++ [dquote] ++ app_name ++ [dquote; comma; newline]
  ++ py "    env=pc.Env.DEV," ++ [newline]
  ++ py ")" ++ [newline].

(** The layout: /home/me/proj holds the project, /home/me/other is
    another directory to call the script from. *)
Definition disk (proj other : list (str * node)) : node :=
  Dir [(py "home", Dir [(py "me", Dir [(py "proj", Dir proj);
                                       (py "other", Dir other)])])].

Definition proj_dir : list str := [py "home"; py "me"; py "proj"].
Definition other_dir : list str := [py "home"; py "me"; py "other"].

Definition app_folder : node :=
  Dir [(py "index.py", File (py "import pynecone as pc"));
       (py "__pycache__", Dir [(py "index.cpython-310.pyc", File [0%N])])].

Definition assets_folder : node :=
  Dir [(py "logo.png", File (py "PNG"));
       (py "img", Dir [(py "bg.svg", File (py "<svg/>"))])].

Definition demo_project (app_name : str) : list (str * node) :=
  [(py "pcconfig.py", File (config_text app_name));
   (app_name, app_folder);
   (py "assets", assets_folder)].

Definition template_file (filename : str) : str :=
  py "# template " ++ filename ++ [newline]
  ++ py "app = default_app" ++ [newline].

(** A world that answers every request; the duplicate request is
    answered with [status]. *)
Definition world (cwd : list str) (status : Z) : World :=
  {| unicode := ascii_only;
     cwd := cwd;
     whoami_reply := fun _ => inr (py "alice");
     duplicate_reply := fun _ _ _ => inr status;
     download_reply := fun _ filename _ => inr (template_file filename);
     cache_path := fun repo filename =>
                     [py "home"; py "me"; py ".cache";
                      replace [slash] (py "--") repo; filename];
     card_parse := fun content =>
                     inr {| card_data := [(py "title", py "Template")];
                            card_text := content |};
     card_yaml := fun d =>
                    join [newline]
                         (map (fun kv => fst kv ++ py ": " ++ snd kv) d);
     commit_reply := fun _ _ _ _ => inr tt |}.

Definition demo_disk : node := disk (demo_project (py "demo")) [].

(** The operations handed to [create_commit], if the run got there. *)
Definition committed (out : state * result unit) : option (list operation) :=
  match filter is_create_commit (log (fst out)) with
  | [CreateCommit _ _ ops _] => Some ops
  | _ => None
  end.

Definition commit_message (out : state * result unit) : option str :=
  match filter is_create_commit (log (fst out)) with
  | [CreateCommit _ msg _ _] => Some msg
  | _ => None
  end.

(** A config written on one line, and one whose assignment is the last
    argument, so that no comma follows it. *)
Definition one_line_config : str :=
  py "config = pc.Config(app_name=" ++ [dquote] ++ py "demo_app" ++ [dquote]
  ++ py ", db_url=" ++ [dquote] ++ py "sqlite:///pynecone.db" ++ [dquote]
  ++ py ", env=pc.Env.DEV)" ++ [newline].

Definition no_comma_config : str :=
  py "config = pc.Config(app_name=" ++ [dquote] ++ py "demo_app" ++ [dquote]
  ++ py ")" ++ [newline].

Definition no_comma_disk : node :=
  disk [(py "pcconfig.py", File no_comma_config);
        (py "demo_app", app_folder);
        (py "assets", assets_folder)] [].

(** A config without any assignment of the app name. *)
Definition nameless_disk : node :=
  disk [(py "pcconfig.py", File (py "import pynecone as pc"));
        (py "assets", assets_folder)] [].

(** The app lives in a sub-folder; a requirements.txt lies next to the
    config file. *)
Definition nested_disk : node :=
  disk [(py "pcconfig.py", File (config_text (py "sub/app")));
        (py "sub", Dir [(py "app", app_folder)]);
        (py "assets", assets_folder);
        (py "requirements.txt", File (py "pynecone"))] [].


(** An app name without a single word character. *)
Definition dashes_disk : node := disk (demo_project (py "---")) [].

(** A README.md in the directory the script is called from, and one
    next to the config file. *)
Definition readme_in_cwd : node :=
  disk (demo_project (py "demo")) [(py "README.md", File (py "Called from here"))].

Definition readme_in_project : node :=
  disk (demo_project (py "demo")
        ++ [(py "README.md", File (py "Next to the config"))]) [].

Definition absolute_config : str := py "/home/me/proj/pcconfig.py".

(** The content of the first operation committed, when it is an upload
    from memory. *)
Definition first_upload (out : state * result unit) : option bytes :=
  match committed out with
  | Some (Add _ (Bytes data) :: _) => Some data
  | _ => None
  end.


End Example.

(** ** Further readings of a run *)

(** The four checks of lines 25-43 pass, with [app_name] extracted. *)
Definition passes_checks (w : World) (pcconfig_path : str) (root : node)
           (app_name : str) : Prop :=
  (exists text,
      lookup root (cwd w) (config_path w pcconfig_path) = Some (File text)
      /\ search_app_name text = Some app_name)
  /\ fs_is_dir root (cwd w) (app_path_of w pcconfig_path app_name) = true
  /\ fs_is_dir root (cwd w) (assets_path_of w pcconfig_path) = true.



(** Line 198. *)
Definition success_line : str := py "Your app has been successfully deployed!".

(** An event other than the console line of line 198. *)
Definition not_success (e : event) : Prop :=
  match e with
  | Print line => line <> success_line
  | _ => True
  end.

(** Neither the console line of line 198 nor a commit. *)
Definition calm (e : event) : Prop :=
  not_success e /\ is_create_commit e = false.

(** The requests of the event, if it is one, go to [repo_id] with the
    caller's token and visibility flag, and a download is one of the
    three files of the template. *)
Definition talks_to (repo_id : str) (private : bool) (token : option str)
           (e : event) : Prop :=
  match e with
  | Whoami t => t = token
  | PostDuplicate r p t => r = repo_id /\ p = private /\ t = token
  | Download r f t =>
      r = repo_id /\ t = token
      /\ In f [py "README.md"; py "pcconfig_docker.py"; py "Dockerfile"]
  | CreateCommit r _ _ t => r = repo_id /\ t = token
  | Print _ | NewOperation _ => True
  end.

(** Lines 112-127 and 134-145: what is uploaded as pcconfig_docker.py
    and as Dockerfile, given the text of the template file. *)
Definition pcconfig_content (space_url_embed app_name text : str) : str :=
  replace (py "https://wauplin-pynecone-on-spaces-template.hf.space/pynecone-backend")
          (space_url_embed ++ py "/pynecone-backend")
          (replace (py "default_app") app_name text).

Definition dockerfile_content (app_name text : str) : str :=
  replace (py "default_app") app_name text.

(** The state of a run when the duplicate request has been answered. *)
Definition provisioned (w : World) (private : bool) (token : option str)
           (root : node) (app_name username : str) (status : Z) : state :=
  {| fs := root;
     log := provision_log w private token username app_name status |}.

(** Lines 206-207: [deploy()] with the defaults of its signature. *)
Definition main (w : World) : M unit :=
  deploy w (py "pcconfig.py") false None.

(** More projects for the examples. *)
Module Layout.

Definition no_app_disk : node :=
  Example.disk [(py "pcconfig.py", File (Example.config_text (py "demo")));
                (py "assets", Example.assets_folder)] [].

Definition no_assets_disk : node :=
  Example.disk [(py "pcconfig.py", File (Example.config_text (py "demo")));
                (py "demo", Example.app_folder)] [].

(** A world in which nobody is logged in, and one whose network is down. *)
Definition logged_out : World :=
  {| unicode := ascii_only;
     cwd := Example.proj_dir;
     whoami_reply := fun _ => inl (External (py "LocalTokenNotFoundError"));
     duplicate_reply := fun _ _ _ => inr 200%Z;
     download_reply := fun _ filename _ => inr (Example.template_file filename);
     cache_path := cache_path (Example.world Example.proj_dir 200);
     card_parse := card_parse (Example.world Example.proj_dir 200);
     card_yaml := card_yaml (Example.world Example.proj_dir 200);
     commit_reply := fun _ _ _ _ => inr tt |}.

Definition offline : World :=
  {| unicode := ascii_only;
     cwd := Example.proj_dir;
     whoami_reply := fun _ => inr (py "alice");
     duplicate_reply := fun _ _ _ => inl (External (py "ConnectionError"));
     download_reply := fun _ filename _ => inr (Example.template_file filename);
     cache_path := cache_path (Example.world Example.proj_dir 200);
     card_parse := card_parse (Example.world Example.proj_dir 200);
     card_yaml := card_yaml (Example.world Example.proj_dir 200);
     commit_reply := fun _ _ _ _ => inr tt |}.

(** A backend that refuses every commit. *)
Definition refusing (status : Z) : World :=
  {| unicode := ascii_only;
     cwd := Example.proj_dir;
     whoami_reply := fun _ => inr (py "alice");
     duplicate_reply := fun _ _ _ => inr status;
     download_reply := fun _ filename _ => inr (Example.template_file filename);
     cache_path := cache_path (Example.world Example.proj_dir 200);
     card_parse := card_parse (Example.world Example.proj_dir 200);
     card_yaml := card_yaml (Example.world Example.proj_dir 200);
     commit_reply := fun _ _ _ _ => inl (External (py "HfHubHTTPError")) |}.

End Layout.

(** The way from [root] down the names [acc] (the last one first), none
    of them [..]: [up] holds the directories crossed, nearest first, and
    [cur] is where the names lead. *)
Inductive trail (root : node) : list str -> list node -> node -> Prop :=
| trail_root : trail root [] [] root
| trail_down acc up es c x :
    trail root acc up (Dir es) ->
    str_eqb c dotdot = false ->
    assoc c es = Some x ->
    trail root (c :: acc) (Dir es :: up) x.

(** No component of the list is [..]. *)
Definition plain (cs : list str) : bool :=
  forallb (fun c => negb (str_eqb c dotdot)) cs.

Definition is_request (e : event) : bool :=
  match e with
  | Whoami _ | PostDuplicate _ _ _ | Download _ _ _ | CreateCommit _ _ _ _ => true
  | Print _ | NewOperation _ => false
  end.

(** * Proofs *)

(** ** Strings *)

Lemma str_eqb_eq (a b : str) : str_eqb a b = true <-> a = b.
Proof.
  unfold str_eqb. destruct (list_eq_dec N.eq_dec a b); split; congruence.
Qed.


Lemma str_eqb_refl (a : str) : str_eqb a a = true.
Proof. now apply str_eqb_eq. Qed.

Lemma starts_with_app (p s : str) : starts_with p (p ++ s) = true.
Proof.
  induction p as [|a p IH]; simpl; [reflexivity|].
  now rewrite N.eqb_refl, IH.
Qed.

Lemma starts_with_split (p s : str) :
  starts_with p s = true -> s = p ++ skipn (length p) s.
Proof.
  revert s. induction p as [|a p IH]; intros s H; simpl in *; [reflexivity|].
  destruct s as [|b s]; [discriminate|].
  apply andb_true_iff in H. destruct H as [Hab H].
  apply N.eqb_eq in Hab. subst b. f_equal. now apply IH.
Qed.

(** ** The curated name *)

Section CuratedName.
Variable U : Unicode.

Lemma sub_nonword_chars (s : str) (c : char) :
  In c (sub_nonword U s) -> c = dash \/ (is_word U c = true /\ In c s).
Proof.
  unfold sub_nonword. intros H. apply in_map_iff in H.
  destruct H as [x [Hx Hin]].
  destruct (is_word U x) eqn:E; subst; auto.
Qed.

Lemma collapse_go_incl (prev : bool) (s : str) (c : char) :
  In c (collapse_go prev s) -> In c s.
Proof.
  revert prev. induction s as [|a s IH]; intros prev H; simpl in *; [assumption|].
  destruct (a =? dash)%N eqn:E.
  - apply N.eqb_eq in E. subst a.
    destruct prev; simpl in H; [right; eauto|].
    destruct H as [H|H]; [now left|right; eauto].
  - simpl in H. destruct H as [H|H]; [now left|right; eauto].
Qed.

Lemma lstrip_dash_incl (s : str) (c : char) :
  In c (lstrip_dash s) -> In c s.
Proof.
  induction s as [|a s IH]; simpl; [trivial|].
  destruct (a =? dash)%N; intros H; [right; auto|exact H].
Qed.

Lemma rstrip_dash_incl (s : str) (c : char) :
  In c (rstrip_dash s) -> In c s.
Proof.
  induction s as [|a s IH]; simpl; [trivial|].
  destruct (rstrip_dash s) as [|x r].
  - destruct (a =? dash)%N; simpl; intuition.
  - intros [H|H]; [now left|right; apply IH, H].
Qed.

Lemma has_double_dash_cons (a b : char) (s : str) :
  has_double_dash (a :: b :: s)
  = ((a =? dash)%N && (b =? dash)%N) || has_double_dash (b :: s).
Proof. reflexivity. Qed.

Lemma has_double_dash_tail (a : char) (s : str) :
  has_double_dash (a :: s) = false -> has_double_dash s = false.
Proof.
  destruct s as [|b s]; [reflexivity|]. rewrite has_double_dash_cons.
  intros H. now apply orb_false_iff in H.
Qed.

Lemma collapse_go_shape (prev : bool) (s : str) :
  has_double_dash (collapse_go prev s) = false
  /\ (prev = true -> starts_with_dash (collapse_go prev s) = false).
Proof.
  revert prev. induction s as [|a s IH]; intros prev; simpl; [auto|].
  destruct (a =? dash)%N eqn:E.
  - destruct prev.
    + apply IH.
    + split; [|discriminate].
      destruct (IH true) as [Hd Hs]. specialize (Hs eq_refl).
      destruct (collapse_go true s) as [|b r] eqn:Er; [reflexivity|].
      rewrite has_double_dash_cons. simpl in Hs. rewrite Hs, Hd.
      now rewrite andb_false_r.
  - split.
    + destruct (IH false) as [Hd _].
      destruct (collapse_go false s) as [|b r] eqn:Er; [reflexivity|].
      rewrite has_double_dash_cons. now rewrite E, Hd.
    + intros _. simpl. exact E.
Qed.

Lemma lstrip_dash_shape (s : str) :
  has_double_dash s = false ->
  has_double_dash (lstrip_dash s) = false
  /\ starts_with_dash (lstrip_dash s) = false.
Proof.
  induction s as [|a s IH]; intros H; simpl; [auto|].
  destruct (a =? dash)%N eqn:E.
  - apply IH. eapply has_double_dash_tail, H.
  - split; [exact H|]. simpl. exact E.
Qed.

Lemma rstrip_dash_head (s : str) (x : char) (r : str) :
  rstrip_dash s = x :: r -> exists t, s = x :: t.
Proof.
  destruct s as [|a s]; simpl; [discriminate|].
  destruct (rstrip_dash s).
  - destruct (a =? dash)%N; [discriminate|].
    intros H; injection H as -> _. eauto.
  - intros H; injection H as -> _. eauto.
Qed.

Lemma ends_with_dash_cons (a b : char) (s : str) :
  ends_with_dash (a :: b :: s) = ends_with_dash (b :: s).
Proof.
  unfold ends_with_dash. simpl.
  destruct (rev s ++ [b]) as [|x l] eqn:E.
  - destruct (rev s); discriminate.
  - reflexivity.
Qed.

Lemma rstrip_dash_shape (s : str) :
  has_double_dash s = false ->
  has_double_dash (rstrip_dash s) = false
  /\ starts_with_dash (rstrip_dash s) = starts_with_dash s && negb (is_nil (rstrip_dash s))
  /\ ends_with_dash (rstrip_dash s) = false.
Proof.
  induction s as [|a s IH]; intros H; simpl; [auto|].
  pose proof (has_double_dash_tail _ _ H) as Ht.
  destruct (IH Ht) as [Hd [_ He]].
  destruct (rstrip_dash s) as [|x r] eqn:Er.
  - destruct (a =? dash)%N eqn:E; simpl.
    + auto.
    + rewrite E. repeat split. unfold ends_with_dash. simpl. exact E.
  - destruct (rstrip_dash_head _ _ _ Er) as [t ->].
    rewrite has_double_dash_cons in H.
    apply orb_false_iff in H. destruct H as [H1 _].
    repeat split.
    + rewrite has_double_dash_cons. now rewrite H1, Hd.
    + simpl. now rewrite andb_true_r.
    + rewrite ends_with_dash_cons. exact He.
Qed.

Lemma curated_app_name_incl (s : str) (c : char) :
  In c (curated_app_name U s) -> c = dash \/ (is_word U c = true /\ In c s).
Proof.
  unfold curated_app_name, strip_dash, collapse_dashes. intros H.
  apply rstrip_dash_incl, lstrip_dash_incl, collapse_go_incl in H.
  now apply sub_nonword_chars.
Qed.

Lemma curated_app_name_shape (s : str) :
  has_double_dash (curated_app_name U s) = false
  /\ starts_with_dash (curated_app_name U s) = false
  /\ ends_with_dash (curated_app_name U s) = false.
Proof.
  unfold curated_app_name, strip_dash, collapse_dashes.
  destruct (collapse_go_shape false (sub_nonword U s)) as [Hc _].
  destruct (lstrip_dash_shape _ Hc) as [Hl Hs].
  destruct (rstrip_dash_shape _ Hl) as [Hd [Hh He]].
  repeat split; try assumption.
  rewrite Hh, Hs. reflexivity.
Qed.

(** A name without word characters is curated to the empty string. *)
Lemma rstrip_dash_all (s : str) :
  Forall (fun c => c = dash) s -> rstrip_dash s = [].
Proof.
  induction 1 as [|a s Ha _ IH]; simpl; [reflexivity|].
  rewrite IH. subst a. reflexivity.
Qed.

Lemma lstrip_dash_all (s : str) :
  Forall (fun c => c = dash) s -> lstrip_dash s = [].
Proof.
  induction 1 as [|a s Ha _ IH]; simpl; [reflexivity|].
  subst a. simpl. exact IH.
Qed.

Lemma collapse_go_all (prev : bool) (s : str) :
  Forall (fun c => c = dash) s ->
  Forall (fun c => c = dash) (collapse_go prev s).
Proof.
  intros H. apply Forall_forall. intros c Hc.
  apply collapse_go_incl in Hc.
  rewrite Forall_forall in H. auto.
Qed.

Lemma curated_app_name_empty (s : str) :
  Forall (fun c => is_word U c = false) s -> curated_app_name U s = [].
Proof.
  intros H. unfold curated_app_name, strip_dash, collapse_dashes.
  rewrite lstrip_dash_all; [reflexivity|].
  apply collapse_go_all. unfold sub_nonword.
  apply Forall_forall. intros c Hc. apply in_map_iff in Hc.
  destruct Hc as [x [Hx Hin]]. rewrite Forall_forall in H.
  now rewrite (H x Hin) in Hx.
Qed.

End CuratedName.




(** ** The extraction of the app name *)

Lemma backtrack_step (r : str) (k : nat) :
  backtrack r (S k) =
  if accepts r (S k) then Some (firstn (S k) r) else backtrack r k.
Proof.
  unfold accepts. cbn [backtrack].
  destruct (skipn (S k) r) as [|q [|c t]]; reflexivity.
Qed.

Lemma backtrack_sound (r : str) (k : nat) (g : str) :
  backtrack r k = Some g ->
  exists j, 1 <= j <= k /\ accepts r j = true /\ g = firstn j r.
Proof.
  induction k as [|k IH]; [discriminate|].
  rewrite backtrack_step. destruct (accepts r (S k)) eqn:E.
  - intros H. injection H as <-. exists (S k). repeat split; lia || assumption.
  - intros H. destruct (IH H) as [j [Hj [Ha Hg]]].
    exists j. repeat split; lia || assumption.
Qed.

Lemma backtrack_greedy (r : str) (k n : nat) :
  1 <= n <= k -> accepts r n = true ->
  (forall j, n < j <= k -> accepts r j = false) ->
  backtrack r k = Some (firstn n r).
Proof.
  induction k as [|k IH]; intros Hn Ha Hlater; [lia|].
  rewrite backtrack_step.
  destruct (Nat.eq_dec n (S k)) as [->|Hne].
  - now rewrite Ha.
  - rewrite Hlater by lia. apply IH; [lia|assumption|].
    intros j Hj. apply Hlater. lia.
Qed.

Lemma backtrack_complete (r : str) (k n : nat) :
  1 <= n <= k -> accepts r n = true -> backtrack r k <> None.
Proof.
  induction k as [|k IH]; intros Hn Ha; [lia|].
  rewrite backtrack_step. destruct (accepts r (S k)) eqn:E; [discriminate|].
  apply IH; [|assumption].
  destruct (Nat.eq_dec n (S k)) as [->|]; [congruence|lia].
Qed.

Lemma line_prefix_len_firstn (r : str) (j : nat) :
  j <= line_prefix_len r ->
  length (firstn j r) = j /\ Forall (fun c => c <> newline) (firstn j r).
Proof.
  revert j. induction r as [|c r IH]; intros j Hj; simpl in *.
  - assert (j = 0) by lia. subst. simpl. auto.
  - destruct j as [|j]; simpl; [auto|].
    destruct (c =? newline)%N eqn:E; [lia|].
    destruct (IH j) as [Hl Hf]; [lia|].
    split; [congruence|]. constructor; [|assumption].
    now apply N.eqb_neq.
Qed.

Lemma line_prefix_len_app (a b : str) :
  Forall (fun c => c <> newline) a ->
  line_prefix_len (a ++ b) = length a + line_prefix_len b.
Proof.
  induction 1 as [|c a Hc _ IH]; simpl; [reflexivity|].
  apply N.eqb_neq in Hc. now rewrite Hc, IH.
Qed.

Lemma is_quote_not_newline (q : char) : is_quote q = true -> q <> newline.
Proof. intros H ->. discriminate. Qed.

Lemma match_here_sound (s g : str) :
  match_here s = Some g ->
  exists q1 q2 post,
    s = key_literal ++ q1 :: g ++ q2 :: comma :: post
    /\ is_quote q1 = true /\ is_quote q2 = true
    /\ g <> [] /\ Forall (fun c => c <> newline) g.
Proof.
  unfold match_here.
  destruct (starts_with key_literal s) eqn:Hs; [|discriminate].
  apply starts_with_split in Hs.
  destruct (skipn (length key_literal) s) as [|q1 r] eqn:Er; [discriminate|].
  destruct (is_quote q1) eqn:Hq1; [|discriminate].
  intros H. apply backtrack_sound in H.
  destruct H as [j [Hj [Ha Hg]]].
  unfold accepts in Ha.
  destruct (skipn j r) as [|q2 [|c post]] eqn:Ej; try discriminate.
  apply andb_true_iff in Ha. destruct Ha as [Hq2 Hc].
  apply N.eqb_eq in Hc. subst c.
  destruct (line_prefix_len_firstn r j) as [Hl Hf]; [lia|].
  exists q1, q2, post. subst g. repeat split; try assumption.
  - rewrite Hs at 1. f_equal. f_equal.
    rewrite <- Ej. symmetry. apply firstn_skipn.
  - intros E. rewrite E in Hl. simpl in Hl. lia.
Qed.

Lemma search_app_name_sound (s g : str) :
  search_app_name s = Some g ->
  exists pre q1 q2 post,
    s = pre ++ key_literal ++ q1 :: g ++ q2 :: comma :: post
    /\ is_quote q1 = true /\ is_quote q2 = true
    /\ g <> [] /\ Forall (fun c => c <> newline) g.
Proof.
  induction s as [|a s IH]; cbn [search_app_name].
  - destruct (match_here []) eqn:E; [|discriminate].
    intros H. injection H as ->.
    destruct (match_here_sound _ _ E) as [q1 [q2 [post H]]].
    exists [], q1, q2, post. exact H.
  - destruct (match_here (a :: s)) eqn:E.
    + intros H. injection H as ->.
      destruct (match_here_sound _ _ E) as [q1 [q2 [post H]]].
      exists [], q1, q2, post. exact H.
    + intros H. destruct (IH H) as [pre [q1 [q2 [post [Hs Hr]]]]].
      exists (a :: pre), q1, q2, post. split; [|exact Hr].
      simpl. now f_equal.
Qed.

Lemma skipn_key_literal (q1 : char) (r : str) :
  skipn (length key_literal) (key_literal ++ q1 :: r) = q1 :: r.
Proof. reflexivity. Qed.

Lemma accepts_at_name (name : str) (q2 : char) (post : str) :
  is_quote q2 = true ->
  accepts (name ++ q2 :: comma :: post) (length name) = true.
Proof.
  intros Hq. unfold accepts.
  rewrite skipn_app, skipn_all, Nat.sub_diag. simpl. now rewrite Hq.
Qed.

Lemma no_quote_on_line (post : str) (m : nat) (q : char) (t : str) :
  Forall (fun c => is_quote c = false) (rest_of_line post) ->
  m <= line_prefix_len post -> skipn m post = q :: t -> is_quote q = false.
Proof.
  revert m. induction post as [|c post IH]; intros m Hf Hm Hs.
  - destruct m; discriminate.
  - cbn [rest_of_line line_prefix_len] in Hf, Hm.
    destruct (c =? newline)%N eqn:E.
    + assert (m = 0) by lia. subst m. simpl in Hs. injection Hs as <- _.
      apply N.eqb_eq in E. now subst c.
    + destruct m as [|m]; simpl in Hs.
      * injection Hs as <- _. now inversion Hf.
      * inversion Hf; subst. apply (IH m); [assumption|lia|assumption].
Qed.

Lemma match_here_exact (q1 q2 : char) (name post : str) :
  is_quote q1 = true -> is_quote q2 = true ->
  name <> [] -> Forall (fun c => c <> newline) name ->
  Forall (fun c => is_quote c = false) (rest_of_line post) ->
  match_here (key_literal ++ q1 :: name ++ q2 :: comma :: post) = Some name.
Proof.
  intros Hq1 Hq2 Hne Hnl Hpost. unfold match_here.
  rewrite starts_with_app, skipn_key_literal, Hq1.
  assert (Hlen : line_prefix_len (name ++ q2 :: comma :: post)
                 = length name + S (S (line_prefix_len post))).
  { rewrite line_prefix_len_app by assumption. simpl.
    apply is_quote_not_newline, N.eqb_neq in Hq2. now rewrite Hq2. }
  rewrite Hlen.
  rewrite (backtrack_greedy _ _ (length name)).
  - now rewrite firstn_app, firstn_all, Nat.sub_diag, app_nil_r.
  - destruct name; [congruence|simpl; lia].
  - now apply accepts_at_name.
  - intros j Hj. unfold accepts.
    replace j with (length name + (j - length name)) by lia.
    rewrite skipn_app, skipn_all2 by lia.
    replace (length name + (j - length name) - length name)
      with (S (j - length name - 1)) by lia.
    simpl. destruct (j - length name - 1) as [|m] eqn:Em; simpl.
    + destruct post; reflexivity.
    + destruct (skipn m post) as [|q [|c t]] eqn:Es; try reflexivity.
      rewrite (no_quote_on_line post m q (c :: t) Hpost);
        [reflexivity|lia|assumption].
Qed.

Lemma match_here_complete (q1 q2 : char) (name post : str) :
  is_quote q1 = true -> is_quote q2 = true ->
  name <> [] -> Forall (fun c => c <> newline) name ->
  match_here (key_literal ++ q1 :: name ++ q2 :: comma :: post) <> None.
Proof.
  intros Hq1 Hq2 Hne Hnl. unfold match_here.
  rewrite starts_with_app, skipn_key_literal, Hq1.
  apply backtrack_complete with (n := length name).
  - rewrite line_prefix_len_app by assumption.
    destruct name; [congruence|simpl; lia].
  - now apply accepts_at_name.
Qed.

Lemma search_app_name_found (pre s : str) :
  match_here s <> None -> search_app_name (pre ++ s) <> None.
Proof.
  intros H. induction pre as [|a pre IH]; cbn [app search_app_name].
  - destruct s; cbn [search_app_name]; destruct (match_here _); congruence.
  - destruct (match_here (a :: pre ++ s)); [discriminate|exact IH].
Qed.

Lemma search_app_name_first (pre s : str) (g : str) :
  (forall a b, pre ++ s = a ++ key_literal ++ b -> length pre <= length a) ->
  match_here s = Some g -> search_app_name (pre ++ s) = Some g.
Proof.
  intros Hfirst Hm. induction pre as [|c pre IH]; cbn [app search_app_name].
  - destruct s; cbn [search_app_name]; now rewrite Hm.
  - destruct (match_here (c :: pre ++ s)) eqn:E.
    + exfalso. apply match_here_sound in E.
      destruct E as [q1 [q2 [post [E _]]]].
      specialize (Hfirst [] (q1 :: s0 ++ q2 :: comma :: post)).
      simpl in Hfirst. specialize (Hfirst E). lia.
    + apply IH. intros a b Hab.
      specialize (Hfirst (c :: a) b). simpl in Hfirst.
      rewrite Hab in Hfirst. specialize (Hfirst eq_refl). lia.
Qed.

(** The extractor finds nothing exactly when no assignment that the
    pattern can match occurs in the text. *)
Lemma search_app_name_none (text : str) :
  (forall q1 q2 name,
      is_quote q1 = true -> is_quote q2 = true ->
      ~ occurs (assignment q1 name q2) text) ->
  search_app_name text = None.
Proof.
  intros H. destruct (search_app_name text) as [g|] eqn:E; [|reflexivity].
  exfalso. apply search_app_name_sound in E.
  destruct E as [pre [q1 [q2 [post [Hs [Hq1 [Hq2 _]]]]]]].
  apply (H q1 q2 g Hq1 Hq2).
  exists pre, (comma :: post). rewrite Hs. unfold assignment.
  rewrite <- !app_assoc. simpl. rewrite <- app_assoc. reflexivity.
Qed.

(** ** The monad *)

Lemma bind_inl {A B} (m : M A) (k : A -> M B) st st' e :
  m st = (st', inl e) -> bind m k st = (st', inl e).
Proof. intros H. unfold bind. now rewrite H. Qed.

Lemma bind_inr {A B} (m : M A) (k : A -> M B) st st1 a :
  m st = (st1, inr a) -> bind m k st = k a st1.
Proof. intros H. unfold bind. now rewrite H. Qed.

Lemma bind_inv {A B} (m : M A) (k : A -> M B) st st' r :
  bind m k st = (st', r) ->
  (exists e, m st = (st', inl e) /\ r = inl e)
  \/ (exists st1 a, m st = (st1, inr a) /\ k a st1 = (st', r)).
Proof.
  unfold bind. destruct (m st) as [st1 [e|a]].
  - intros H. injection H as <- <-. left. eauto.
  - intros H. right. eauto.
Qed.

Section Triples.
Context {A B : Type}.
Variable P : event -> Prop.

Lemma emits_ret (a : A) : emits P (ret a).
Proof.
  intros st st' r H. injection H as <- <-.
  exists []. now rewrite app_nil_r.
Qed.

Lemma emits_raise (e : exn) : emits P (@raise A e).
Proof.
  intros st st' r H. injection H as <- <-.
  exists []. now rewrite app_nil_r.
Qed.

Lemma emits_lift (x : result A) : emits P (lift x).
Proof.
  intros st st' r H. injection H as <- <-.
  exists []. now rewrite app_nil_r.
Qed.

Lemma emits_bind (m : M A) (k : A -> M B) :
  emits P m -> (forall a, emits P (k a)) -> emits P (bind m k).
Proof.
  intros Hm Hk st st' r H. apply bind_inv in H.
  destruct H as [[e [H ->]]|[st1 [a [H1 H2]]]].
  - eapply Hm, H.
  - destruct (Hm _ _ _ H1) as [evs1 [E1 F1]].
    destruct (Hk a _ _ _ H2) as [evs2 [E2 F2]].
    exists (evs1 ++ evs2). rewrite E2, E1, app_assoc. split; [reflexivity|].
    apply Forall_app. auto.
Qed.

Lemma keeps_fs_ret (a : A) : keeps_fs (ret a).
Proof. intros st st' r H. now injection H as <- _. Qed.

Lemma keeps_fs_raise (e : exn) : keeps_fs (@raise A e).
Proof. intros st st' r H. now injection H as <- _. Qed.

Lemma keeps_fs_lift (x : result A) : keeps_fs (lift x).
Proof. intros st st' r H. now injection H as <- _. Qed.

Lemma keeps_fs_bind (m : M A) (k : A -> M B) :
  keeps_fs m -> (forall a, keeps_fs (k a)) -> keeps_fs (bind m k).
Proof.
  intros Hm Hk st st' r H. apply bind_inv in H.
  destruct H as [[e [H ->]]|[st1 [a [H1 H2]]]].
  - eapply Hm, H.
  - rewrite (Hk a _ _ _ H2). eapply Hm, H1.
Qed.

End Triples.

Lemma emits_emit (P : event -> Prop) (e : event) : P e -> emits P (emit e).
Proof.
  intros HP st st' r H. injection H as <- <-. exists [e]. simpl. auto.
Qed.

Lemma emits_get_fs (P : event -> Prop) : emits P get_fs.
Proof.
  intros st st' r H. injection H as <- <-. exists []. now rewrite app_nil_r.
Qed.

Lemma keeps_fs_emit (e : event) : keeps_fs (emit e).
Proof. intros st st' r H. now injection H as <- _. Qed.

Lemma keeps_fs_get_fs : keeps_fs get_fs.
Proof. intros st st' r H. now injection H as <- _. Qed.

Create HintDb triples.

#[local] Hint Resolve emits_ret emits_raise emits_lift emits_emit emits_get_fs
  keeps_fs_ret keeps_fs_raise keeps_fs_lift keeps_fs_emit keeps_fs_get_fs
  : triples.

(** Breaks a computation down along its binds and case distinctions. *)
Ltac triple :=
  repeat first
    [ solve [auto with triples]
    | apply emits_bind; [|intros]
    | apply keeps_fs_bind; [|intros]
    | match goal with
      | |- emits _ (if ?b then _ else _) => destruct b
      | |- keeps_fs (if ?b then _ else _) => destruct b
      | |- emits _ (match ?x with _ => _ end) => destruct x
      | |- keeps_fs (match ?x with _ => _ end) => destruct x
      end ].

(** ** The primitives of the script *)

Section Primitives.
Variable w : World.
Variable P : event -> Prop.

Lemma emits_is_file p : emits P (is_file w p).
Proof. unfold is_file. triple. Qed.

Lemma emits_is_dir p : emits P (is_dir w p).
Proof. unfold is_dir. triple. Qed.

Lemma emits_read_text p : emits P (read_text w p).
Proof. unfold read_text. triple. Qed.

Lemma emits_glob p : emits P (glob w p).
Proof. unfold glob. triple. Qed.

Lemma emits_encode s : emits P (encode s).
Proof. unfold encode. triple. Qed.

Lemma emits_print line : P (Print line) -> emits P (print line).
Proof. intros. unfold print. triple. Qed.

Lemma emits_append_op ops op :
  P (NewOperation op) -> emits P (append_op ops op).
Proof. intros. unfold append_op. triple. Qed.

Lemma emits_hf_hub_download repo_id filename token :
  P (Download repo_id filename token) ->
  emits P (hf_hub_download w repo_id filename token).
Proof.
  intros HP. unfold hf_hub_download. triple.
  intros st st' r H. injection H as <- <-. exists []. simpl.
  now rewrite app_nil_r.
Qed.

Lemma keeps_fs_is_file p : keeps_fs (is_file w p).
Proof. unfold is_file. triple. Qed.

Lemma keeps_fs_is_dir p : keeps_fs (is_dir w p).
Proof. unfold is_dir. triple. Qed.

Lemma keeps_fs_read_text p : keeps_fs (read_text w p).
Proof. unfold read_text. triple. Qed.

Lemma keeps_fs_glob p : keeps_fs (glob w p).
Proof. unfold glob. triple. Qed.

Lemma keeps_fs_encode s : keeps_fs (encode s).
Proof. unfold encode. triple. Qed.

Lemma keeps_fs_print line : keeps_fs (print line).
Proof. unfold print. triple. Qed.

Lemma keeps_fs_append_op ops op : keeps_fs (append_op ops op).
Proof. unfold append_op. triple. Qed.

End Primitives.

#[local] Hint Resolve emits_is_file emits_is_dir emits_read_text emits_glob
  emits_encode emits_print emits_append_op emits_hf_hub_download
  keeps_fs_is_file keeps_fs_is_dir keeps_fs_read_text keeps_fs_glob
  keeps_fs_encode keeps_fs_print keeps_fs_append_op : triples.

#[local] Hint Extern 1 (setup_event _) => exact I : triples.

(** ** Where files are written *)


Section Stores.
Variable w : World.
Context {A B : Type}.



End Stores.



(** ** Paths *)

Lemma strip_prefix_app (a l : list str) : strip_prefix a (a ++ l) = Some l.
Proof.
  induction a as [|x a IH]; simpl; [reflexivity|].
  now rewrite str_eqb_refl.
Qed.

Lemma removelast_last_part (cs : list str) :
  cs = removelast cs ++ last_part cs.
Proof.
  destruct cs as [|c cs]; [reflexivity|].
  unfold last_part. apply app_removelast_last. discriminate.
Qed.

(** Every path of a traversal lies below the parent of the directory
    traversed, and its relative name is what remains after the parent. *)
Lemma relative_to_glob (root : node) (cwd : list str) (dir p : path) :
  In p (glob_all root cwd dir) ->
  relative_to p (parent dir)
  = Some {| is_abs := false;
            parts := skipn (length (removelast (parts dir))) (parts p) |}
  /\ exists rel, p = {| is_abs := is_abs dir; parts := parts dir ++ rel |}.
Proof.
  unfold glob_all. destruct (lookup root cwd dir) as [[c|es]|]; try easy.
  intros H. apply in_map_iff in H. destruct H as [rel [<- _]].
  split; [|eauto].
  unfold relative_to, parent. cbn [is_abs parts].
  rewrite Bool.eqb_reflx.
  rewrite (removelast_last_part (parts dir)) at 2 4.
  rewrite <- !app_assoc, strip_prefix_app.
  now rewrite skipn_app, skipn_all, Nat.sub_diag.
Qed.

(** ** The upload loops *)

Section Sync.
Variable w : World.

Lemma sync_loop_run (base : path) (keep : path -> bool) (rel : path -> path)
      (paths : list path) :
  (forall p, In p paths -> relative_to p base = Some (rel p)) ->
  forall ops st,
    let adds :=
      flat_map (fun p =>
                  if fs_is_file (fs st) (cwd w) p && keep p
                  then [Add (path_str (rel p)) (LocalFile p)] else [])
               paths in
    sync_loop w base keep paths ops st
    = ({| fs := fs st; log := log st ++ map NewOperation adds |},
       inr (ops ++ adds)).
Proof.
  induction paths as [|p paths IH]; intros Hrel ops st; simpl.
  - unfold ret. rewrite !app_nil_r. now destruct st.
  - unfold bind at 1. unfold is_file, bind, get_fs, ret.
    destruct (fs_is_file (fs st) (cwd w) p && keep p) eqn:E.
    + rewrite (Hrel p) by now left.
      unfold append_op, emit, bind, ret. simpl.
      rewrite IH by (intros q Hq; apply Hrel; now right).
      simpl. now rewrite <- !app_assoc.
    + rewrite IH by (intros q Hq; apply Hrel; now right).
      reflexivity.
Qed.

Lemma sync_loop_glob (root : node) (dir : path) (keep : path -> bool)
      (ops : list operation) (st : state) :
  fs st = root ->
  sync_loop w (parent dir) keep (glob_all root (cwd w) dir) ops st
  = ({| fs := fs st;
        log := log st ++ map NewOperation (loop_adds root (cwd w) keep dir) |},
     inr (ops ++ loop_adds root (cwd w) keep dir)).
Proof.
  intros <-. unfold loop_adds.
  apply (sync_loop_run (parent dir) keep
           (fun p => {| is_abs := false;
                        parts := skipn (length (removelast (parts dir)))
                                       (parts p) |})).
  intros p Hp. now apply relative_to_glob in Hp.
Qed.

Lemma sync_run (app_name : str) (app_path assets_path : path)
      (is_new : bool) (ops : list operation) (st : state) :
  sync w app_name app_path assets_path is_new ops st
  = ({| fs := fs st;
        log := log st ++ sync_events (fs st) (cwd w) app_name app_path
                                     assets_path is_new |},
     inr (ops ++ sync_ops (fs st) (cwd w) app_name app_path assets_path
                          is_new)).
Proof.
  unfold sync, sync_events, sync_ops.
  cbv beta iota zeta delta [bind print append_op emit ret glob get_fs is_file].
  cbn [fs log].
  destruct (fs_is_file (fs st) (cwd w)
              (joinpath (parent app_path) (py "requirements.txt")));
    cbn [fs log];
    rewrite sync_loop_glob by reflexivity; cbn [fs log];
    rewrite sync_loop_glob by reflexivity; cbn [fs log];
    repeat rewrite <- app_assoc; cbn [app]; reflexivity.
Qed.

Lemma map_new_operation_quiet (ops : list operation) :
  Forall setup_event (map NewOperation ops).
Proof.
  induction ops as [|op ops IH]; simpl; constructor; [exact I|exact IH].
Qed.

Lemma sync_events_quiet root app_name app_path assets_path is_new :
  Forall setup_event
         (sync_events root (cwd w) app_name app_path assets_path is_new).
Proof.
  unfold sync_events.
  apply Forall_app; split.
  { destruct (fs_is_file root (cwd w) _);
      repeat (constructor; [exact I|]); constructor. }
  apply Forall_app; split.
  { repeat (constructor; [exact I|]); constructor. }
  apply Forall_app; split; [apply map_new_operation_quiet|].
  apply Forall_app; split; [|apply map_new_operation_quiet].
  repeat (constructor; [exact I|]); constructor.
Qed.

End Sync.

(** ** The operations of a first deploy *)

Lemma bind_inv_inr {A B} (m : M A) (k : A -> M B) st st' b :
  bind m k st = (st', inr b) ->
  exists st1 a, m st = (st1, inr a) /\ k a st1 = (st', inr b).
Proof.
  intros H. apply bind_inv in H.
  destruct H as [[e [_ H]]|H]; [discriminate|exact H].
Qed.

Ltac unbind H :=
  let st1 := fresh "st" in
  let a := fresh "a" in
  let H1 := fresh "H" in
  apply bind_inv_inr in H; destruct H as [st1 [a [H1 H]]].

Lemma append_op_inv ops op st st' x :
  append_op ops op st = (st', inr x) -> x = ops ++ [op].
Proof. intros H. now injection H as _ <-. Qed.

Section Setup.
Variable w : World.

Lemma emits_RepoCard_load P name token :
  (forall f, P (Download name f token)) ->
  emits P (RepoCard_load w name token).
Proof. intros HP. unfold RepoCard_load. triple. Qed.

Lemma emits_setup_new repo_id curated app_name embed token ops :
  emits setup_event (setup_new w repo_id curated app_name embed token ops).
Proof.
  unfold setup_new, setup_readme, setup_pcconfig, setup_dockerfile,
    readme_text.
  triple; apply emits_RepoCard_load; intros; exact I.
Qed.



Lemma setup_readme_inv repo_id curated app_name token ops st st' ops' :
  setup_readme w repo_id curated app_name token ops st = (st', inr ops') ->
  exists d, ops' = ops ++ [Add (py "README.md") (Bytes d)].
Proof.
  unfold setup_readme. intros H. unbind H. unbind H. unbind H.
  apply append_op_inv in H. eauto.
Qed.

Lemma setup_pcconfig_inv repo_id app_name embed token ops st st' ops' :
  setup_pcconfig w repo_id app_name embed token ops st = (st', inr ops') ->
  exists d, ops' = ops ++ [Add (py "pcconfig_docker.py") (Bytes d)].
Proof.
  unfold setup_pcconfig. intros H. unbind H. unbind H. unbind H. unbind H.
  apply append_op_inv in H. eauto.
Qed.

Lemma setup_dockerfile_inv repo_id app_name token ops st st' ops' :
  setup_dockerfile w repo_id app_name token ops st = (st', inr ops') ->
  exists d, ops' = ops ++ [Add (py "Dockerfile") (Bytes d)].
Proof.
  unfold setup_dockerfile. intros H. unbind H. unbind H. unbind H. unbind H.
  apply append_op_inv in H. eauto.
Qed.

Lemma setup_new_inv repo_id curated app_name embed token st st' ops' :
  setup_new w repo_id curated app_name embed token [] st = (st', inr ops') ->
  setup_operations ops'.
Proof.
  unfold setup_new. intros H. unbind H. unbind H.
  apply setup_readme_inv in H0. destruct H0 as [d1 ->].
  apply setup_pcconfig_inv in H1. destruct H1 as [d2 ->].
  apply setup_dockerfile_inv in H. destruct H as [d3 ->].
  exists d1, d2, d3. reflexivity.
Qed.

(** ** From the first read of [is_new] to the end *)

Lemma push_run (is_new : bool) repo_id curated app_name embed
      app_path assets_path token st :
  push w (Some is_new) repo_id curated app_name embed app_path assets_path
       token st
  = match (if is_new then
             setup_new w repo_id curated app_name embed token []
           else
             print (py "  Space already configured. Do not update README.md, Dockerfile and pcconfig.py") ;;
             ret []) st with
    | (st1, inl e) => (st1, inl e)
    | (st1, inr setup) =>
        after_setup w is_new repo_id app_name embed app_path assets_path
                    token setup st1
    end.
Proof.
  unfold push. unfold bind at 1.
  match goal with |- context [?m st] => destruct (m st) as [st1 [e|setup]] end;
    [reflexivity|].
  rewrite (bind_inr _ _ _ _ _ (sync_run w _ _ _ _ _ _)).
  unfold after_setup, commit_message_of, create_commit.
  cbv beta iota zeta delta [bind print emit ret lift]. cbn [fs log].
  destruct (commit_reply w repo_id _ _ token) as [e|[]];
    cbn [fs log]; repeat rewrite <- app_assoc; cbn [app]; reflexivity.
Qed.

Lemma push_unbound repo_id curated app_name embed app_path assets_path
      token st :
  push w None repo_id curated app_name embed app_path assets_path token st
  = (st, inl (UnboundLocalError (py "is_new"))).
Proof. reflexivity. Qed.

End Setup.

(** ** The run as a whole *)

(** Runs the monadic code of the goal as far as it is determined. *)
Ltac exec :=
  cbv beta iota zeta delta [bind is_file is_dir read_text get_fs ret raise
                              emit lift print];
  cbn [fs log negb].

Section Run.
Variable w : World.
Variables (pcconfig_path : str) (private : bool) (token : option str).
Variable root : node.

(** Up to the duplicate request a run is determined by the four checks
    and the two answers. *)
Lemma deploy_run app_name username status :
  reaches_provision w pcconfig_path private token root app_name username
                    status ->
  run w pcconfig_path private token root
  = push w (is_new_after status)
         (repo_id_of w username app_name)
         (curated_app_name (unicode w) app_name) app_name
         (space_url_embed_of w username app_name)
         (app_path_of w pcconfig_path app_name)
         (assets_path_of w pcconfig_path) token
         {| fs := root;
            log := provision_log w private token username app_name status |}.
Proof.
  intros [[text [Hcfg Hname]] [Happ [Hassets [Hwho Hdup]]]].
  unfold run, deploy, provision.
  fold (config_path w pcconfig_path). fold (config_dir w pcconfig_path).
  fold (assets_path_of w pcconfig_path).
  exec. unfold fs_is_file.
  repeat (progress (rewrite ?Hcfg, ?Hname;
                    fold (app_path_of w pcconfig_path app_name);
                    rewrite ?Happ, ?Hassets, ?Hwho;
                    fold (repo_id_of w username app_name);
                    rewrite ?Hdup; exec)).
  unfold provision_log, is_new_after, space_url_of, space_url_embed_of.
  destruct (is_http_error status); [destruct (status =? 409)%Z|];
    exec; cbn [app]; reflexivity.
Qed.

(** A run that does not get that far stops with an exception, has
    written nothing and has neither built an operation nor committed. *)
Lemma deploy_early st' r :
  run w pcconfig_path private token root = (st', r) ->
  (exists app_name username status,
      reaches_provision w pcconfig_path private token root app_name
                        username status)
  \/ (fs st' = root
      /\ (exists e, r = inl e)
      /\ Forall (fun e => is_new_operation e = false
                          /\ is_create_commit e = false) (log st')).
Proof.
  unfold run, deploy, reaches_provision, provision.
  fold (config_path w pcconfig_path). fold (config_dir w pcconfig_path).
  fold (assets_path_of w pcconfig_path).
  exec. unfold fs_is_file.
  destruct (lookup root (cwd w) (config_path w pcconfig_path))
    as [[text|es]|] eqn:Hcfg; exec; rewrite ?Hcfg; exec;
    try (intros H; injection H as <- <-; right; cbn; eauto).
  destruct (search_app_name text) as [app_name|] eqn:Hname; exec;
    [|intros H; injection H as <- <-; right; cbn; eauto].
  fold (app_path_of w pcconfig_path app_name).
  destruct (fs_is_dir root (cwd w) (app_path_of w pcconfig_path app_name))
    eqn:Happ; exec;
    [|intros H; injection H as <- <-; right; cbn; eauto].
  destruct (fs_is_dir root (cwd w) (assets_path_of w pcconfig_path))
    eqn:Hassets; exec;
    [|intros H; injection H as <- <-; right; cbn; eauto].
  destruct (whoami_reply w token) as [e|username] eqn:Hwho; exec;
    [intros H; injection H as <- <-; right; cbn;
     repeat split; eauto; repeat constructor|].
  fold (repo_id_of w username app_name).
  destruct (duplicate_reply w (repo_id_of w username app_name) private token)
    as [e|status] eqn:Hdup; exec;
    [intros H; injection H as <- <-; right; cbn;
     repeat split; eauto; repeat constructor|].
  intros _. left. exists app_name, username, status.
  repeat split; eauto.
Qed.

Lemma provision_log_quiet username app_name status :
  Forall (fun e => is_new_operation e = false /\ is_create_commit e = false)
         (provision_log w private token username app_name status).
Proof.
  unfold provision_log.
  destruct (is_http_error status); [destruct (status =? 409)%Z|];
    cbn [app]; repeat (constructor; [split; reflexivity|]); constructor.
Qed.

Lemma setup_event_no_commit (evs : list event) :
  Forall setup_event evs -> filter is_create_commit evs = [].
Proof.
  induction 1 as [|e evs He _ IH]; [reflexivity|].
  simpl. destruct e; simpl in *; try contradiction; exact IH.
Qed.

Lemma quiet_no_commit (evs : list event) :
  Forall (fun e => is_new_operation e = false /\ is_create_commit e = false)
         evs ->
  filter is_create_commit evs = [].
Proof.
  induction 1 as [|e evs [_ He] _ IH]; [reflexivity|].
  simpl. now rewrite He.
Qed.

Lemma no_commit_not_in (evs : list event) repo_id message ops tok :
  filter is_create_commit evs = [] ->
  ~ In (CreateCommit repo_id message ops tok) evs.
Proof.
  intros H Hin.
  assert (Hf : In (CreateCommit repo_id message ops tok)
                  (filter is_create_commit evs))
    by (apply filter_In; split; [exact Hin|reflexivity]).
  rewrite H in Hf. exact Hf.
Qed.

Lemma after_setup_commit is_new repo_id app_name embed app_path assets_path
      setup st :
  filter is_create_commit (log st) = [] ->
  let out := after_setup w is_new repo_id app_name embed app_path
                         assets_path token setup st in
  fs (fst out) = fs st
  /\ filter is_create_commit (log (fst out))
     = [CreateCommit repo_id (commit_message_of is_new app_name)
          (setup ++ sync_ops (fs st) (cwd w) app_name app_path assets_path
                             is_new) token].
Proof.
  intros Hst. unfold after_setup. cbn [fst fs log].
  split; [reflexivity|].
  rewrite !filter_app, Hst.
  rewrite (setup_event_no_commit _ (sync_events_quiet w _ _ _ _ _)).
  cbn [app filter is_create_commit].
  destruct (commit_reply w repo_id _ _ token); reflexivity.
Qed.

(** Whatever a run commits, it commits once, and the commit is made of
    what the checks, the two answers and the local files determine. *)
Lemma commit_inv st' r repo_id message ops tok :
  run w pcconfig_path private token root = (st', r) ->
  In (CreateCommit repo_id message ops tok) (log st') ->
  exists app_name username status is_new setup,
    committed_by w pcconfig_path private token root st' repo_id message ops
                 tok app_name username status is_new setup.
Proof.
  intros Hrun Hin.
  destruct (deploy_early _ _ Hrun) as [[app_name [username [status Hreach]]]
                                      |[_ [_ Hquiet]]];
    [|exfalso; eapply no_commit_not_in; [apply quiet_no_commit, Hquiet|exact Hin]].
  rewrite (deploy_run _ _ _ Hreach) in Hrun.
  pose proof (quiet_no_commit _ (provision_log_quiet username app_name status))
    as Hlog.
  destruct (is_new_after status) as [is_new|] eqn:Hnew.
  2:{ rewrite push_unbound in Hrun. injection Hrun as <- _.
      exfalso. eapply no_commit_not_in; [exact Hlog|exact Hin]. }
  rewrite push_run in Hrun.
  destruct is_new.
  - destruct (setup_new w _ _ _ _ _ _ _) as [st1 [e|setup]] eqn:Hsetup.
    + injection Hrun as <- _. exfalso.
      destruct (emits_setup_new _ _ _ _ _ _ _ _ _ _ Hsetup) as [evs [E F]].
      cbn [log] in E. rewrite E in Hin.
      eapply no_commit_not_in; [|exact Hin].
      rewrite filter_app, Hlog. now apply setup_event_no_commit.
    + destruct (emits_setup_new _ _ _ _ _ _ _ _ _ _ Hsetup) as [evs [E F]].
      cbn [log] in E.
      assert (Hst1 : filter is_create_commit (log st1) = [])
        by (rewrite E, filter_app, Hlog; now apply setup_event_no_commit).
      destruct (after_setup_commit true (repo_id_of w username app_name)
                  app_name (space_url_embed_of w username app_name)
                  (app_path_of w pcconfig_path app_name)
                  (assets_path_of w pcconfig_path) setup st1 Hst1)
        as [Hfs Hone].
      rewrite Hrun in Hfs, Hone. cbn [fst] in Hfs, Hone.
      assert (Hf : In (CreateCommit repo_id message ops tok)
                      (filter is_create_commit (log st')))
        by (apply filter_In; split; [exact Hin|reflexivity]).
      rewrite Hone in Hf. destruct Hf as [Hf|[]].
      injection Hf as <- <- <- <-.
      exists app_name, username, status, true, setup.
      unfold committed_by. rewrite Hfs.
      split; [exact Hreach|].
      repeat split; try assumption || reflexivity.
      eapply setup_new_inv, Hsetup.
  - cbv beta iota zeta delta [bind print emit ret] in Hrun.
    cbn [fs log] in Hrun.
    match type of Hrun with
    | after_setup _ _ _ _ _ _ _ _ _ ?st1 = _ =>
        assert (Hst1 : filter is_create_commit (log st1) = [])
          by (cbn [log]; rewrite filter_app, Hlog; reflexivity);
        destruct (after_setup_commit false (repo_id_of w username app_name)
                    app_name (space_url_embed_of w username app_name)
                    (app_path_of w pcconfig_path app_name)
                    (assets_path_of w pcconfig_path) [] st1 Hst1)
          as [Hfs Hone]
    end.
    rewrite Hrun in Hfs, Hone. cbn [fst fs] in Hfs, Hone.
    assert (Hf : In (CreateCommit repo_id message ops tok)
                    (filter is_create_commit (log st')))
      by (apply filter_In; split; [exact Hin|reflexivity]).
    rewrite Hone in Hf. destruct Hf as [Hf|[]].
    injection Hf as <- <- <- <-.
    exists app_name, username, status, false, [].
    unfold committed_by. rewrite Hfs.
    split; [exact Hreach|].
    repeat split; try assumption || reflexivity.
Qed.

End Run.

(** ** Extraction of the app name from the config file (C3) *)

Lemma contains_unfold (p s : str) :
  contains p s
  = starts_with p s
    || match s with [] => false | _ :: s' => contains p s' end.
Proof. destruct s; reflexivity. Qed.

Lemma contains_occurs (p s : str) : occurs p s -> contains p s = true.
Proof.
  intros [a [b ->]]. induction a as [|c a IH].
  - cbn [app]. now rewrite contains_unfold, starts_with_app.
  - cbn [app]. rewrite contains_unfold, IH. apply orb_true_r.
Qed.

Lemma first_occurrence_by_check (pre s : str) :
  forallb (fun i => negb (starts_with key_literal (skipn i (pre ++ s))))
          (seq 0 (length pre)) = true ->
  forall a b, pre ++ s = a ++ key_literal ++ b -> length pre <= length a.
Proof.
  intros H a b E.
  destruct (le_lt_dec (length pre) (length a)) as [Hle|Hlt]; [exact Hle|].
  exfalso. rewrite forallb_forall in H.
  specialize (H (length a)).
  rewrite E, skipn_app, skipn_all, Nat.sub_diag in H.
  cbn [skipn app] in H. rewrite starts_with_app in H.
  assert (Hin : In (length a) (seq 0 (length pre))) by (apply in_seq; lia).
  specialize (H Hin). discriminate.
Qed.

Lemma run_without_app_name (w : World) (pcconfig_path : str) (private : bool)
      (token : option str) (root : node) (text : str) :
  lookup root (cwd w) (config_path w pcconfig_path) = Some (File text) ->
  search_app_name text = None ->
  run w pcconfig_path private token root
  = ({| fs := root; log := [] |},
     inl (ValueError (py "Could not find app_name in "
                      ++ path_str (config_path w pcconfig_path)))).
Proof.
  intros Hcfg Hname. unfold run, deploy.
  fold (config_path w pcconfig_path).
  exec. unfold fs_is_file. rewrite Hcfg. exec. rewrite Hcfg. exec.
  rewrite Hname. reflexivity.
Qed.

(** C3, as stated, fails.  The pattern also asks for a comma after the
    closing quote: a config whose assignment is the last argument holds
    [app_name="demo_app"], yet nothing is extracted and [deploy] stops with
    the error about the missing field.  And the group is greedy: on a
    one-line config the extracted text runs up to the last quote that a
    comma follows. *)
Lemma extraction_needs_comma :
  occurs (assignment dquote (py "demo_app") dquote) Example.no_comma_config
  /\ search_app_name Example.no_comma_config = None
  /\ snd (run (Example.world Example.proj_dir 200) (py "pcconfig.py") false
              None Example.no_comma_disk)
     = inl (ValueError (py "Could not find app_name in /home/me/proj/pcconfig.py"))
  /\ occurs (assignment dquote (py "demo_app") dquote) Example.one_line_config
  /\ search_app_name Example.one_line_config
     = Some (py "demo_app" ++ [dquote] ++ py ", db_url=" ++ [dquote]
             ++ py "sqlite:///pynecone.db")
  /\ search_app_name Example.one_line_config <> Some (py "demo_app").
Proof.
  split; [exists (py "config = pc.Config("), (py ")" ++ [newline]); reflexivity|].
  split; [reflexivity|].
  split; [reflexivity|].
  split; [exists (py "config = pc.Config("),
           (py ", db_url=" ++ [dquote] ++ py "sqlite:///pynecone.db" ++ [dquote]
            ++ py ", env=pc.Env.DEV)" ++ [newline]); reflexivity|].
  split; [reflexivity|].
  vm_compute. discriminate.
Qed.

(** C3, amended: if the first [app_name=] of the config text is followed
    by a quote, a non-empty name without a line break, a quote and a
    comma, and no further quote character follows on that line, the name
    is extracted; [app_name="demo_app",] yields [demo_app]; and for every
    config file whose text holds no assignment [app_name=<quote><name><quote>]
    at all, [deploy] stops with the [ValueError] that names the missing
    field. *)
Theorem app_name_extraction :
  (forall pre q1 name q2 post,
      is_quote q1 = true -> is_quote q2 = true ->
      name <> [] -> Forall (fun c => c <> newline) name ->
      Forall (fun c => is_quote c = false) (rest_of_line post) ->
      (forall a b,
          pre ++ assignment q1 name q2 ++ comma :: post = a ++ key_literal ++ b ->
          length pre <= length a) ->
      search_app_name (pre ++ assignment q1 name q2 ++ comma :: post)
      = Some name)
  /\ search_app_name (assignment dquote (py "demo_app") dquote ++ [comma])
     = Some (py "demo_app")
  /\ (forall w pcconfig_path private token root text,
         lookup root (cwd w) (config_path w pcconfig_path) = Some (File text) ->
         (forall q1 q2 name,
             is_quote q1 = true -> is_quote q2 = true ->
             ~ occurs (assignment q1 name q2) text) ->
         run w pcconfig_path private token root
         = ({| fs := root; log := [] |},
            inl (ValueError (py "Could not find app_name in "
                             ++ path_str (config_path w pcconfig_path))))).
Proof.
  split; [|split].
  - intros pre q1 name q2 post Hq1 Hq2 Hne Hnl Hpost Hfirst.
    apply search_app_name_first; [exact Hfirst|].
    unfold assignment. rewrite <- !app_assoc. cbn [app].
    rewrite <- app_assoc. cbn [app].
    now apply match_here_exact.
  - reflexivity.
  - intros w pcconfig_path private token root text Hcfg Hnone.
    apply run_without_app_name with (text := text); [exact Hcfg|].
    now apply search_app_name_none.
Qed.

Lemma app_name_extraction_witness :
  search_app_name (Example.config_text (py "demo_app")) = Some (py "demo_app")
  /\ run (Example.world Example.proj_dir 200) (py "pcconfig.py") false None
         Example.nameless_disk
     = ({| fs := Example.nameless_disk; log := [] |},
        inl (ValueError (py "Could not find app_name in /home/me/proj/pcconfig.py"))).
Proof.
  destruct app_name_extraction as [Hfound [_ Hmissing]].
  split.
  - apply (Hfound (py "import pynecone as pc" ++ [newline; newline]
                   ++ py "config = pc.Config(" ++ [newline] ++ py "    ")
                  dquote (py "demo_app") dquote
                  ([newline] ++ py "    env=pc.Env.DEV," ++ [newline]
                   ++ py ")" ++ [newline])).
    + reflexivity.
    + reflexivity.
    + discriminate.
    + repeat (constructor; [discriminate|]). constructor.
    + constructor.
    + apply first_occurrence_by_check. reflexivity.
  - apply (Hmissing (Example.world Example.proj_dir 200) (py "pcconfig.py")
                    false None Example.nameless_disk
                    (py "import pynecone as pc")).
    + reflexivity.
    + intros q1 q2 name _ _ Hocc.
      assert (Hkey : occurs key_literal (py "import pynecone as pc")).
      { destruct Hocc as [a [b E]]. exists a, (q1 :: name ++ [q2] ++ b).
        rewrite E. unfold assignment.
        repeat (rewrite <- app_assoc; cbn [app]). reflexivity. }
      apply contains_occurs in Hkey. discriminate.
Defined.

(** ** What the upload loops add *)

Lemma in_loop_adds (root : node) (cwd : list str) (keep : path -> bool)
      (dir : path) (op : operation) :
  In op (loop_adds root cwd keep dir) <->
  exists p,
    In p (glob_all root cwd dir)
    /\ fs_is_file root cwd p = true /\ keep p = true
    /\ op = Add (path_str {| is_abs := false;
                             parts := skipn (length (removelast (parts dir)))
                                            (parts p) |})
                (LocalFile p).
Proof.
  unfold loop_adds. rewrite in_flat_map. split.
  - intros [p [Hin H]].
    destruct (fs_is_file root cwd p) eqn:Hf; [|destruct H].
    destruct (keep p) eqn:Hk; [|destruct H].
    destruct H as [<-|[]]. exists p. auto.
  - intros [p [Hin [Hf [Hk ->]]]]. exists p. split; [exact Hin|].
    rewrite Hf, Hk. now left.
Qed.

Lemma loop_adds_local (root : node) (cwd : list str) (keep : path -> bool)
      (dir : path) (op : operation) :
  In op (loop_adds root cwd keep dir) ->
  exists name p, op = Add name (LocalFile p).
Proof. intros H. apply in_loop_adds in H. destruct H as [p [_ [_ [_ ->]]]]. eauto. Qed.



Lemma is_new_after_cases (status : Z) (is_new : bool) :
  is_new_after status = Some is_new ->
  (is_new = true <-> is_http_error status = false)
  /\ (is_new = false <-> status = 409%Z).
Proof.
  unfold is_new_after.
  destruct (is_http_error status) eqn:E.
  - destruct (status =? 409)%Z eqn:E9; [|discriminate].
    intros H. injection H as <-. apply Z.eqb_eq in E9.
    split; split; intros; congruence.
  - intros H. injection H as <-.
    split; split; intros; try congruence.
    subst status. discriminate.
Qed.

(** ** Concrete runs of the example project *)


Lemma run_pair (w : World) (p : str) (b : bool) (t : option str) (root : node) :
  run w p b t root = (fst (run w p b t root), snd (run w p b t root)).
Proof. apply surjective_pairing. Qed.

(** The update run of the example project commits once. *)
Lemma demo_update_commit :
  exists ops,
    Example.committed
      (run (Example.world Example.proj_dir 409) (py "pcconfig.py") false None
           Example.demo_disk) = Some ops
    /\ In (CreateCommit (py "alice/demo") (py "Update demo") ops None)
          (log (fst (run (Example.world Example.proj_dir 409)
                         (py "pcconfig.py") false None Example.demo_disk))).
Proof.
  eexists. split; [vm_compute; reflexivity|].
  vm_compute. do 13 right. left. reflexivity.
Qed.

(** ** Provisioning errors (C2) *)

Lemma push_update (w : World) repo_id curated app_name embed app_path
      assets_path token st :
  push w (Some false) repo_id curated app_name embed app_path assets_path
       token st
  = after_setup w false repo_id app_name embed app_path assets_path token []
      {| fs := fs st;
         log := log st ++ [Print (py "  Space already configured. Do not update README.md, Dockerfile and pcconfig.py")] |}.
Proof. rewrite push_run. reflexivity. Qed.



(** ** The names of the uploads *)





(** ** The commit (C7, C5) *)

(** C7: whatever a run commits, it commits exactly once, and the message
    is "Deploy <app>!" when the Space is new and "Update <app>" when it
    already existed; the first run of the end-to-end example commits
    with the message "Deploy demo!". *)
Theorem commit_message_deploy_or_update :
  (forall w pcconfig_path private token root st' r repo_id message ops tok,
      run w pcconfig_path private token root = (st', r) ->
      In (CreateCommit repo_id message ops tok) (log st') ->
      filter is_create_commit (log st')
      = [CreateCommit repo_id message ops tok]
      /\ exists app_name username status is_new,
          reaches_provision w pcconfig_path private token root app_name
                            username status
          /\ is_new_after status = Some is_new
          /\ (is_new = true <-> is_http_error status = false)
          /\ (is_new = false <-> status = 409%Z)
          /\ message = (if is_new then py "Deploy " ++ app_name ++ py "!"
                        else py "Update " ++ app_name))
  /\ Example.commit_message
       (run (Example.world Example.proj_dir 200) (py "pcconfig.py") false None
            Example.demo_disk)
     = Some (py "Deploy demo!").
Proof.
  split; [|reflexivity].
  intros w pcconfig_path private token root st' r repo_id message ops tok
         Hrun Hin.
  destruct (commit_inv _ _ _ _ _ _ _ _ _ _ _ Hrun Hin)
    as [app_name [username [status [is_new [setup H]]]]].
  destruct H as [Hreach [Hnew [_ [_ [Hmsg [_ [_ Hone]]]]]]].
  split; [exact Hone|].
  exists app_name, username, status, is_new.
  destruct (is_new_after_cases _ _ Hnew) as [H1 H2].
  repeat split; try assumption; try apply H1; try apply H2; apply Hreach.
Qed.

Lemma commit_message_deploy_or_update_witness :
  exists repo_id ops tok,
    filter is_create_commit
           (log (fst (run (Example.world Example.proj_dir 409)
                          (py "pcconfig.py") false None Example.demo_disk)))
    = [CreateCommit repo_id (py "Update demo") ops tok].
Proof.
  destruct commit_message_deploy_or_update as [H _].
  destruct demo_update_commit as [ops [_ Hin]].
  exists (py "alice/demo"), ops, None.
  apply (H _ _ _ _ _ _ _ _ _ _ _ (run_pair _ _ _ _ _) Hin).
Defined.



(** ** A degenerate repository id (C10) *)

Lemma push_extends (w : World) is_new repo_id curated app_name embed app_path
      assets_path token st st' r :
  push w is_new repo_id curated app_name embed app_path assets_path token st
  = (st', r) ->
  exists evs, log st' = log st ++ evs.
Proof.
  destruct is_new as [[|]|].
  - rewrite push_run.
    destruct (setup_new w _ _ _ _ _ _ _) as [st1 [e|setup]] eqn:Hsetup;
      destruct (emits_setup_new _ _ _ _ _ _ _ _ _ _ Hsetup) as [evs [E _]].
    + intros H. injection H as <- _. eauto.
    + unfold after_setup. intros H. injection H as <- _.
      cbn [log]. rewrite E, <- app_assoc. eauto.
  - rewrite push_update. unfold after_setup. intros H. injection H as <- _.
    cbn [log fs]. rewrite <- app_assoc. eauto.
  - rewrite push_unbound. intros H. injection H as <- _.
    exists []. now rewrite app_nil_r.
Qed.

Lemma deploy_post_raises (w : World) (pcconfig_path : str) (private : bool)
      (token : option str) (root : node) (text app_name username : str)
      (e : exn) :
  lookup root (cwd w) (config_path w pcconfig_path) = Some (File text) ->
  search_app_name text = Some app_name ->
  fs_is_dir root (cwd w) (app_path_of w pcconfig_path app_name) = true ->
  fs_is_dir root (cwd w) (assets_path_of w pcconfig_path) = true ->
  whoami_reply w token = inr username ->
  duplicate_reply w (repo_id_of w username app_name) private token = inl e ->
  run w pcconfig_path private token root
  = ({| fs := root;
        log := [Whoami token;
                Print (py "Repo ID: " ++ repo_id_of w username app_name);
                PostDuplicate (repo_id_of w username app_name) private token] |},
     inl e).
Proof.
  intros Hcfg Hname Happ Hassets Hwho Hdup.
  unfold run, deploy, provision.
  fold (config_path w pcconfig_path). fold (config_dir w pcconfig_path).
  fold (assets_path_of w pcconfig_path).
  exec. unfold fs_is_file.
  repeat (progress (rewrite ?Hcfg, ?Hname;
                    fold (app_path_of w pcconfig_path app_name);
                    rewrite ?Happ, ?Hassets, ?Hwho;
                    fold (repo_id_of w username app_name);
                    rewrite ?Hdup; exec)).
  reflexivity.
Qed.

(** C10: an app name without any word character (such as "---") passes
    the checks once its folder exists; its curated name is empty, the
    repository id is "<username>/", and the duplicate request is issued
    for that id. *)
Theorem empty_curated_name_is_provisioned (w : World) (pcconfig_path : str)
        (private : bool) (token : option str) (root : node)
        (text app_name username : str) :
  lookup root (cwd w) (config_path w pcconfig_path) = Some (File text) ->
  search_app_name text = Some app_name ->
  fs_is_dir root (cwd w) (app_path_of w pcconfig_path app_name) = true ->
  fs_is_dir root (cwd w) (assets_path_of w pcconfig_path) = true ->
  whoami_reply w token = inr username ->
  Forall (fun c => is_word (unicode w) c = false) app_name ->
  curated_app_name (unicode w) app_name = []
  /\ repo_id_of w username app_name = username ++ [slash]
  /\ exists st' r evs,
      run w pcconfig_path private token root = (st', r)
      /\ log st' = [Whoami token;
                    Print (py "Repo ID: " ++ username ++ [slash]);
                    PostDuplicate (username ++ [slash]) private token]
                   ++ evs.
Proof.
  intros Hcfg Hname Happ Hassets Hwho Hnoword.
  pose proof (curated_app_name_empty _ _ Hnoword) as Hcur.
  assert (Hid : repo_id_of w username app_name = username ++ [slash])
    by (unfold repo_id_of; now rewrite Hcur, app_nil_r).
  split; [exact Hcur|]. split; [exact Hid|].
  destruct (duplicate_reply w (repo_id_of w username app_name) private token)
    as [e|status] eqn:Hdup.
  - rewrite (deploy_post_raises _ _ _ _ _ _ _ _ _
               Hcfg Hname Happ Hassets Hwho Hdup).
    rewrite Hid. do 2 eexists. exists []. split; reflexivity.
  - assert (Hreach : reaches_provision w pcconfig_path private token root
                                       app_name username status)
      by (repeat split; eauto).
    rewrite (deploy_run _ _ _ _ _ _ _ _ Hreach).
    destruct (push w _ _ _ _ _ _ _ _ _) as [st' r] eqn:Hpush.
    destruct (push_extends _ _ _ _ _ _ _ _ _ _ _ _ Hpush) as [evs E].
    cbn [log] in E. unfold provision_log in E. rewrite Hid in E.
    rewrite <- app_assoc in E.
    do 3 eexists. split; [reflexivity|]. exact E.
Qed.

Lemma empty_curated_name_is_provisioned_witness :
  exists evs,
    log (fst (run (Example.world Example.proj_dir 409) (py "pcconfig.py")
                  false None Example.dashes_disk))
    = [Whoami None;
       Print (py "Repo ID: alice/");
       PostDuplicate (py "alice/") false None] ++ evs.
Proof.
  destruct (empty_curated_name_is_provisioned
              (Example.world Example.proj_dir 409) (py "pcconfig.py") false
              None Example.dashes_disk (Example.config_text (py "---"))
              (py "---") (py "alice"))
    as [_ [_ [st' [r [evs [Hrun Hlog]]]]]];
    try reflexivity.
  - repeat (constructor; [reflexivity|]). constructor.
  - exists evs. rewrite Hrun. exact Hlog.
Defined.

(** ** Folder names and siblings *)

Lemma split_go_no_slash (s cur : str) :
  existsb (N.eqb slash) s = false ->
  split_go [slash] 0 cur s = [rev cur ++ s].
Proof.
  revert cur. induction s as [|c s IH]; intros cur H.
  - simpl. now rewrite app_nil_r.
  - cbn [existsb] in H. apply orb_false_iff in H. destruct H as [Hc Hs].
    cbn [split_go starts_with]. rewrite Hc. cbn [andb].
    rewrite IH by exact Hs. cbn [rev]. now rewrite <- app_assoc.
Qed.

Lemma Path_folder_name (s : str) :
  folder_name s = true -> Path s = {| is_abs := false; parts := [s] |}.
Proof.
  unfold folder_name. intros H.
  apply andb_true_iff in H. destruct H as [H Hdd].
  apply andb_true_iff in H. destruct H as [H Hd].
  apply andb_true_iff in H. destruct H as [Hnil Hslash].
  apply negb_true_iff in Hslash.
  unfold Path, split. rewrite split_go_no_slash by exact Hslash.
  cbn [rev app filter]. rewrite Hnil, Hd. cbn [andb]. f_equal.
  destruct s as [|c s]; [discriminate|].
  cbn [existsb] in Hslash. apply orb_false_iff in Hslash.
  cbn [starts_with]. now rewrite (proj1 Hslash).
Qed.

Lemma joinpath_folder_name (d : path) (s : str) :
  folder_name s = true ->
  joinpath d s = {| is_abs := is_abs d; parts := parts d ++ [s] |}.
Proof. intros H. unfold joinpath. now rewrite (Path_folder_name _ H). Qed.

Lemma parent_joinpath_folder (d : path) (s : str) :
  folder_name s = true -> parent (joinpath d s) = d.
Proof.
  intros H. rewrite (joinpath_folder_name _ _ H). unfold parent.
  cbn [is_abs parts]. rewrite removelast_last. now destruct d.
Qed.

Lemma parent_assets_path (w : World) (pcconfig_path : str) :
  parent (assets_path_of w pcconfig_path) = config_dir w pcconfig_path.
Proof. apply parent_joinpath_folder. reflexivity. Qed.


(** ** The traversal reaches every file *)







(** ** The app folder (C4) *)




(** ** The assets folder (C6) *)

Lemma count_delete_app (name : str) (folder : bool) (a b : list operation) :
  count_delete name folder (a ++ b)
  = count_delete name folder a + count_delete name folder b.
Proof. unfold count_delete. now rewrite filter_app, length_app. Qed.

Lemma count_delete_adds (name : str) (folder : bool) (l : list operation) :
  (forall op, In op l -> exists n p, op = Add n p) ->
  count_delete name folder l = 0.
Proof.
  unfold count_delete. induction l as [|op l IH]; intros H; [reflexivity|].
  destruct (H op (or_introl eq_refl)) as [n [p ->]]. cbn [filter op_eqb_delete].
  apply IH. intros op' Hin. apply H. now right.
Qed.

Lemma count_delete_loop_adds (name : str) (folder : bool) root cwd keep dir :
  count_delete name folder (loop_adds root cwd keep dir) = 0.
Proof.
  apply count_delete_adds. intros op H.
  destruct (loop_adds_local _ _ _ _ _ H) as [n [p ->]]. eauto.
Qed.

Lemma count_delete_setup (name : str) (folder : bool) (is_new : bool)
      (setup : list operation) (P : Prop) :
  (if is_new then setup_operations setup else setup = [] /\ P) ->
  count_delete name folder setup = 0.
Proof.
  destruct is_new.
  - intros [d1 [d2 [d3 ->]]]. reflexivity.
  - intros [-> _]. reflexivity.
Qed.




(** ** Local writes (C8) *)








(** ** Where the README is looked for (C9) *)

Lemma readme_text_run (w : World) (app_name : str) (st : state) :
  readme_text w app_name st
  = match walk [] (fs st) (cwd w ++ [py "README.md"]) with
    | Some (File content) =>
        ({| fs := fs st; log := log st ++ [Print found_locally] |},
         match card_parse w content with
         | inl e => inl e
         | inr card => inr (card_text card)
         end)
    | _ =>
        ({| fs := fs st; log := log st ++ [Print not_found_locally] |},
         inr (basic_readme w app_name))
    end.
Proof.
  unfold readme_text, RepoCard_load.
  change (Path (py "README.md"))
    with {| is_abs := false; parts := [py "README.md"] |}.
  exec. unfold fs_is_file, lookup. cbn [is_abs parts].
  destruct (walk [] (fs st) (cwd w ++ [py "README.md"])) as [[content|es]|]
    eqn:E; exec; try reflexivity.
  repeat (progress (rewrite ?E; exec; cbn [is_abs parts fs])).
  destruct (card_parse w content); reflexivity.
Qed.

Lemma parent_requirements_path (w : World) (pcconfig_path app_name : str) :
  parent (requirements_path_of w pcconfig_path app_name)
  = parent (app_path_of w pcconfig_path app_name).
Proof. apply parent_joinpath_folder. reflexivity. Qed.

Lemma requirements_upload_iff (root : node) (cwd : list str) (app_name : str)
      (app_path assets_path : path) (is_new : bool) (setup : list operation) :
  (if is_new then setup_operations setup else setup = [] /\ True) ->
  let req := joinpath (parent app_path) (py "requirements.txt") in
  In (Add (py "requirements.txt") (LocalFile req))
     (setup ++ sync_ops root cwd app_name app_path assets_path is_new)
  -> fs_is_file root cwd req = true.
Proof.
  intros Hsetup req Hin. apply in_app_or in Hin. destruct Hin as [Hin|Hin].
  { destruct is_new.
    - destruct Hsetup as [d1 [d2 [d3 ->]]].
      destruct Hin as [H|[H|[H|[]]]]; discriminate.
    - destruct Hsetup as [-> _]. destruct Hin. }
  unfold sync_ops in Hin. fold req in Hin.
  destruct (fs_is_file root cwd req) eqn:E; [reflexivity|].
  cbn [app] in Hin. destruct Hin as [Hin|Hin]; [discriminate|].
  apply in_app_or in Hin. destruct Hin as [Hin|[Hin|Hin]];
    try discriminate;
    apply in_loop_adds in Hin; destruct Hin as [p [_ [Hf [_ Hop]]]];
    injection Hop as _ <-; congruence.
Qed.

(** C9, as stated, fails in its second half: requirements.txt is looked
    for next to the app folder, not next to the config file.  With
    [app_name="sub/app"] the requirements.txt beside the config file is
    reported as not found, and the app folder is not a sibling of the
    config file either. *)
Lemma requirements_beside_config_ignored :
  fs_is_file Example.nested_disk Example.proj_dir
             (joinpath (config_dir (Example.world Example.proj_dir 409)
                                   (py "pcconfig.py"))
                       (py "requirements.txt")) = true
  /\ In (Print (py "  requirements.txt not found"))
        (log (fst (run (Example.world Example.proj_dir 409) (py "pcconfig.py")
                       false None Example.nested_disk)))
  /\ path_str (requirements_path_of (Example.world Example.proj_dir 409)
                                    (py "pcconfig.py") (py "sub/app"))
     = py "/home/me/proj/sub/requirements.txt"
  /\ parent (app_path_of (Example.world Example.proj_dir 409)
                         (py "pcconfig.py") (py "sub/app"))
     <> config_dir (Example.world Example.proj_dir 409) (py "pcconfig.py").
Proof.
  split; [vm_compute; reflexivity|].
  split; [vm_compute; do 5 right; left; reflexivity|].
  split; [vm_compute; reflexivity|].
  vm_compute. discriminate.
Qed.

(** C9, amended: the presence check and the read of the local README.md
    use the path "README.md" relative to the working directory of the
    process, whatever folder the config file is in.  The assets folder is
    the sibling "assets" of the config file, the app folder is the config
    folder joined with the app name, and requirements.txt is looked for
    next to the app folder; all three are siblings of the config file
    when the app name is a single folder name.  So a run started in
    another directory takes the README of that directory and ignores the
    one beside the config file. *)
Theorem readme_resolved_against_cwd :
  (forall w app_name st,
      readme_text w app_name st
      = match walk [] (fs st) (cwd w ++ [py "README.md"]) with
        | Some (File content) =>
            ({| fs := fs st; log := log st ++ [Print found_locally] |},
             match card_parse w content with
             | inl e => inl e
             | inr card => inr (card_text card)
             end)
        | _ =>
            ({| fs := fs st;
                log := log st ++ [Print not_found_locally] |},
             inr (basic_readme w app_name))
        end)
  /\ (forall w pcconfig_path private token root st' r repo_id message ops tok,
         run w pcconfig_path private token root = (st', r) ->
         In (CreateCommit repo_id message ops tok) (log st') ->
         exists app_name username status,
           reaches_provision w pcconfig_path private token root app_name
                             username status
           /\ fs_is_dir root (cwd w) (app_path_of w pcconfig_path app_name) = true
           /\ fs_is_dir root (cwd w) (assets_path_of w pcconfig_path) = true
           /\ (In (Add (py "requirements.txt")
                       (LocalFile (requirements_path_of w pcconfig_path
                                                        app_name))) ops
               <-> fs_is_file (fs st') (cwd w)
                     (requirements_path_of w pcconfig_path app_name) = true)
           /\ parent (assets_path_of w pcconfig_path)
              = config_dir w pcconfig_path
           /\ parent (requirements_path_of w pcconfig_path app_name)
              = parent (app_path_of w pcconfig_path app_name)
           /\ (folder_name app_name = true ->
               parent (app_path_of w pcconfig_path app_name)
               = config_dir w pcconfig_path
               /\ parent (requirements_path_of w pcconfig_path app_name)
                  = config_dir w pcconfig_path))
  /\ Example.first_upload
       (run (Example.world Example.other_dir 200) Example.absolute_config
            false None Example.readme_in_cwd)
     = utf8 (card_content (Example.world Example.other_dir 200)
               {| card_data := [(py "title", py "Demo")];
                  card_text := py "Called from here" |})
  /\ Example.first_upload
       (run (Example.world Example.other_dir 200) (py "../proj/pcconfig.py")
            false None Example.readme_in_project)
     = utf8 (card_content (Example.world Example.other_dir 200)
               {| card_data := [(py "title", py "Demo")];
                  card_text := basic_readme (Example.world Example.other_dir 200)
                                            (py "demo") |}).
Proof.
  split; [exact readme_text_run|].
  split; [|split; vm_compute; reflexivity].
  intros w pcconfig_path private token root st' r repo_id message ops tok
         Hrun Hin.
  destruct (commit_inv _ _ _ _ _ _ _ _ _ _ _ Hrun Hin)
    as [app_name [username [status [is_new [setup H]]]]].
  destruct H as [Hreach [_ [_ [_ [_ [Hops [Hsetup _]]]]]]].
  exists app_name, username, status.
  split; [exact Hreach|].
  destruct Hreach as [_ [Happ [Hassets _]]].
  split; [exact Happ|]. split; [exact Hassets|].
  split; [|split; [apply parent_assets_path|
                   split; [apply parent_requirements_path|]]].
  - split.
    + intros Hreq. rewrite Hops in Hreq.
      apply (requirements_upload_iff (fs st') (cwd w) app_name
               (app_path_of w pcconfig_path app_name)
               (assets_path_of w pcconfig_path) is_new setup);
        [|exact Hreq].
      destruct is_new; [exact Hsetup|]. split; [apply Hsetup|exact I].
    + intros Hfile. rewrite Hops. apply in_or_app. right.
      unfold sync_ops. apply in_or_app. left.
      unfold requirements_path_of in Hfile. rewrite Hfile.
      right. left. reflexivity.
  - intros Hname. rewrite parent_requirements_path.
    split; now apply parent_joinpath_folder.
Qed.

Lemma readme_resolved_against_cwd_witness :
  parent (requirements_path_of (Example.world Example.proj_dir 409)
                               (py "pcconfig.py") (py "demo"))
  = config_dir (Example.world Example.proj_dir 409) (py "pcconfig.py").
Proof.
  destruct readme_resolved_against_cwd as [_ [H _]].
  destruct demo_update_commit as [ops [_ Hin]].
  destruct (H _ _ _ _ _ _ _ _ _ _ _ (run_pair _ _ _ _ _) Hin)
    as [app_name [username [status [Hreach [_ [_ [_ [_ [_ Hsib]]]]]]]]].
  destruct Hreach as [[text [Hcfg Hname]] _].
  vm_compute in Hcfg. injection Hcfg as <-.
  vm_compute in Hname. injection Hname as <-.
  apply Hsib. reflexivity.
Defined.

(** * More of the script *)

(** ** The curated name keeps the word characters (line 50) *)

Section Curation.
Variable U : Unicode.

Lemma is_word_dash : is_word U dash = false.
Proof. reflexivity. Qed.

Lemma filter_sub_nonword (s : str) :
  filter (is_word U) (sub_nonword U s) = filter (is_word U) s.
Proof.
  induction s as [|a s IH]; [reflexivity|]. cbn [sub_nonword map filter].
  fold (sub_nonword U s).
  destruct (is_word U a) eqn:E.
  - rewrite E. now f_equal.
  - rewrite is_word_dash. exact IH.
Qed.

Lemma filter_collapse_go (prev : bool) (s : str) :
  filter (is_word U) (collapse_go prev s) = filter (is_word U) s.
Proof.
  revert prev. induction s as [|a s IH]; intros prev; [reflexivity|].
  cbn [collapse_go]. destruct (a =? dash)%N eqn:E.
  - apply N.eqb_eq in E. subst a. cbn [filter]. rewrite is_word_dash.
    destruct prev; [apply IH|]. cbn [filter]. rewrite is_word_dash. apply IH.
  - cbn [filter]. now rewrite IH.
Qed.

Lemma filter_lstrip_dash (s : str) :
  filter (is_word U) (lstrip_dash s) = filter (is_word U) s.
Proof.
  induction s as [|a s IH]; [reflexivity|]. cbn [lstrip_dash].
  destruct (a =? dash)%N eqn:E; [|reflexivity].
  apply N.eqb_eq in E. subst a. cbn [filter]. now rewrite is_word_dash.
Qed.

Lemma filter_rstrip_dash (s : str) :
  filter (is_word U) (rstrip_dash s) = filter (is_word U) s.
Proof.
  induction s as [|a s IH]; [reflexivity|]. cbn [rstrip_dash].
  destruct (rstrip_dash s) as [|x r].
  - cbn [filter] in *. rewrite <- IH.
    destruct (a =? dash)%N eqn:E.
    + apply N.eqb_eq in E. subst a. now rewrite is_word_dash.
    + reflexivity.
  - cbn [filter] in *. now rewrite IH.
Qed.

Lemma sub_nonword_fixed (s : str) :
  (forall c, In c s -> c = dash \/ is_word U c = true) ->
  sub_nonword U s = s.
Proof.
  induction s as [|a s IH]; intros H; [reflexivity|].
  cbn [sub_nonword map]. fold (sub_nonword U s).
  rewrite IH by (intros c Hc; apply H; now right).
  destruct (H a (or_introl eq_refl)) as [->|Hw].
  - now rewrite is_word_dash.
  - now rewrite Hw.
Qed.

Lemma collapse_go_fixed (s : str) :
  forall prev,
    has_double_dash s = false ->
    (prev = true -> starts_with_dash s = false) ->
    collapse_go prev s = s.
Proof.
  induction s as [|a s IH]; intros prev Hd Hs; [reflexivity|].
  cbn [collapse_go]. pose proof (has_double_dash_tail a s Hd) as Ht.
  destruct (a =? dash)%N eqn:E.
  - destruct prev; [specialize (Hs eq_refl); simpl in Hs; congruence|].
    apply N.eqb_eq in E. subst a. f_equal. apply IH; [exact Ht|].
    intros _. destruct s as [|b s]; [reflexivity|].
    rewrite has_double_dash_cons in Hd. apply orb_false_iff in Hd.
    destruct Hd as [Hd _]. simpl. now rewrite N.eqb_refl in Hd.
  - f_equal. apply IH; [exact Ht|discriminate].
Qed.

Lemma lstrip_dash_fixed (s : str) :
  starts_with_dash s = false -> lstrip_dash s = s.
Proof. destruct s as [|a s]; [reflexivity|]. simpl. now intros ->. Qed.

Lemma rstrip_dash_fixed (s : str) :
  ends_with_dash s = false -> rstrip_dash s = s.
Proof.
  induction s as [|a s IH]; intros H; [reflexivity|]. cbn [rstrip_dash].
  destruct s as [|b t].
  - cbn [rstrip_dash]. unfold ends_with_dash in H. simpl in H. now rewrite H.
  - rewrite ends_with_dash_cons in H. now rewrite (IH H).
Qed.

Lemma filter_nil_none (s : str) :
  filter (is_word U) s = [] -> Forall (fun c => is_word U c = false) s.
Proof.
  induction s as [|a s IH]; intros H; [constructor|].
  cbn [filter] in H. destruct (is_word U a) eqn:E; [discriminate|].
  constructor; auto.
Qed.

Lemma filter_curated (s : str) :
  filter (is_word U) (curated_app_name U s) = filter (is_word U) s.
Proof.
  unfold curated_app_name, strip_dash, collapse_dashes.
  now rewrite filter_rstrip_dash, filter_lstrip_dash, filter_collapse_go,
    filter_sub_nonword.
Qed.

End Curation.

(** X1: the curated name holds the word characters of the app name, all
    of them and in the same order: curation only replaces, merges and
    drops the characters in between. *)
Theorem curation_keeps_word_characters (U : Unicode) (app_name : str) :
  filter (is_word U) (curated_app_name U app_name)
  = filter (is_word U) app_name.
Proof. apply filter_curated. Qed.

(** X2: a curated name is not changed by being curated again; more
    generally the names that curation leaves alone are those made of
    word characters and single inner dashes. *)
Theorem curation_idempotent (U : Unicode) (s : str) :
  ((forall c, In c s -> c = dash \/ is_word U c = true)
   /\ has_double_dash s = false
   /\ starts_with_dash s = false
   /\ ends_with_dash s = false
   <-> curated_app_name U s = s)
  /\ curated_app_name U (curated_app_name U s) = curated_app_name U s.
Proof.
  assert (Hfix : forall t,
             (forall c, In c t -> c = dash \/ is_word U c = true) ->
             has_double_dash t = false -> starts_with_dash t = false ->
             ends_with_dash t = false -> curated_app_name U t = t).
  { intros t Hc Hd Hs He. unfold curated_app_name, strip_dash, collapse_dashes.
    rewrite sub_nonword_fixed by exact Hc.
    rewrite collapse_go_fixed by (assumption || discriminate).
    rewrite lstrip_dash_fixed by exact Hs.
    now apply rstrip_dash_fixed. }
  assert (Hshape : forall t,
             (forall c, In c (curated_app_name U t) ->
                        c = dash \/ is_word U c = true)
             /\ has_double_dash (curated_app_name U t) = false
             /\ starts_with_dash (curated_app_name U t) = false
             /\ ends_with_dash (curated_app_name U t) = false).
  { intros t. split; [|apply curated_app_name_shape].
    intros c Hin. apply curated_app_name_incl in Hin. tauto. }
  split.
  - split.
    + intros [Hc [Hd [Hs He]]]. now apply Hfix.
    + intros E. rewrite <- E. apply Hshape.
  - destruct (Hshape s) as [Hc [Hd [Hs He]]]. now apply Hfix.
Qed.

(** X3: the curated name is empty exactly when the app name has no word
    character at all. *)
Theorem curation_empty_iff (U : Unicode) (app_name : str) :
  curated_app_name U app_name = []
  <-> Forall (fun c => is_word U c = false) app_name.
Proof.
  split; [|apply curated_app_name_empty].
  intros E. apply filter_nil_none.
  now rewrite <- (filter_curated U), E.
Qed.

Lemma curation_idempotent_witness :
  curated_app_name ascii_only (py "My-App") = py "My-App".
Proof.
  destruct (curation_idempotent ascii_only (py "My-App")) as [[H _] _].
  apply H. repeat split; try reflexivity.
  intros c Hc. vm_compute in Hc.
  repeat (destruct Hc as [<-|Hc]; [vm_compute; tauto|]). destruct Hc.
Defined.

Lemma curation_empty_iff_witness :
  curated_app_name ascii_only (py "---") = [].
Proof.
  apply (proj2 (curation_empty_iff ascii_only (py "---"))).
  repeat (constructor; [reflexivity|]). constructor.
Defined.

(** ** What the regular expression extracts (lines 28-33) *)

Lemma accepts_lt (r : str) (j : nat) : accepts r j = true -> j < length r.
Proof.
  unfold accepts. intros H.
  destruct (skipn j r) as [|q [|c t]] eqn:E; try discriminate.
  assert (Hlen : length (skipn j r) = length r - j) by apply length_skipn.
  rewrite E in Hlen. simpl in Hlen. lia.
Qed.

Lemma backtrack_max (r : str) (k : nat) (g : str) :
  backtrack r k = Some g ->
  forall n, 1 <= n <= k -> accepts r n = true -> n <= length g.
Proof.
  induction k as [|k IH]; [discriminate|].
  rewrite backtrack_step. destruct (accepts r (S k)) eqn:E.
  - intros H n Hn _.
    assert (Hg : firstn (S k) r = g) by congruence.
    apply accepts_lt in E. rewrite <- Hg, length_firstn. lia.
  - intros H n Hn Ha.
    destruct (Nat.eq_dec n (S k)) as [->|Hne]; [congruence|].
    apply IH; [exact H|lia|exact Ha].
Qed.

Lemma app_same_length {A} (a b c d : list A) :
  a ++ b = c ++ d -> length a = length c -> a = c /\ b = d.
Proof.
  revert c. induction a as [|x a IH]; intros [|y c] E L;
    try discriminate; [auto|].
  injection E as -> E. injection L as L.
  destruct (IH c E L) as [-> ->]. auto.
Qed.

Lemma search_app_name_leftmost (s g : str) :
  search_app_name s = Some g ->
  exists pre rest,
    s = pre ++ rest /\ match_here rest = Some g
    /\ forall pre2 rest2,
        s = pre2 ++ rest2 -> length pre2 < length pre ->
        match_here rest2 = None.
Proof.
  induction s as [|a s IH]; cbn [search_app_name].
  - destruct (match_here []) eqn:E; [|discriminate].
    intros H. injection H as ->. exists [], []. repeat split; auto.
    intros pre2 rest2 _ Hlt. simpl in Hlt. lia.
  - destruct (match_here (a :: s)) eqn:E.
    + intros H. injection H as ->. exists [], (a :: s). repeat split; auto.
      intros pre2 rest2 _ Hlt. simpl in Hlt. lia.
    + intros H. destruct (IH H) as [pre [rest [-> [Hm Hleft]]]].
      exists (a :: pre), rest. repeat split; auto.
      intros [|b pre2] rest2 E2 Hlt.
      * simpl in E2. subst rest2. exact E.
      * simpl in E2. injection E2 as <- E2. apply (Hleft pre2); [exact E2|].
        simpl in Hlt. lia.
Qed.

Lemma assignment_comma (q1 : char) (name : str) (q2 : char) (post : str) :
  assignment q1 name q2 ++ comma :: post
  = key_literal ++ q1 :: name ++ q2 :: comma :: post.
Proof.
  unfold assignment. rewrite <- app_assoc. cbn [app].
  now rewrite <- app_assoc.
Qed.

(** X4: what is extracted is the leftmost, then longest, match: it
    stands in the text between [app_name=<quote>] and [<quote>,], is not
    empty and has no line break; no other such assignment starts earlier
    in the text, and none starting at the same place has a longer name. *)
Theorem extraction_leftmost_longest (text g : str) :
  search_app_name text = Some g ->
  exists pre q1 q2 post,
    text = pre ++ assignment q1 g q2 ++ comma :: post
    /\ is_quote q1 = true /\ is_quote q2 = true
    /\ g <> [] /\ Forall (fun c => c <> newline) g
    /\ forall pre2 p1 name2 p2 post2,
        text = pre2 ++ assignment p1 name2 p2 ++ comma :: post2 ->
        is_quote p1 = true -> is_quote p2 = true ->
        name2 <> [] -> Forall (fun c => c <> newline) name2 ->
        length pre <= length pre2
        /\ (length pre2 = length pre -> length name2 <= length g).
Proof.
  intros Hs. apply search_app_name_leftmost in Hs.
  destruct Hs as [pre [rest [-> [Hm Hleft]]]].
  destruct (match_here_sound _ _ Hm) as [q1 [q2 [post [-> [Hq1 [Hq2 [Hne Hnl]]]]]]].
  exists pre, q1, q2, post. rewrite assignment_comma.
  repeat split; try assumption.
  - destruct (le_lt_dec (length pre) (length pre2)) as [Hle|Hlt];
      [exact Hle|exfalso].
    rewrite assignment_comma in H.
    specialize (Hleft _ _ H Hlt).
    now apply (match_here_complete p1 p2 name2 post2).
  - intros Hlen. rewrite assignment_comma in H.
    apply app_same_length in H; [|now symmetry].
    destruct H as [_ H]. apply app_inv_head in H. injection H as _ H.
    unfold match_here in Hm.
    rewrite starts_with_app, skipn_key_literal, Hq1 in Hm.
    apply (backtrack_max _ _ _ Hm).
    + rewrite H, line_prefix_len_app by assumption.
      destruct name2; [congruence|simpl; lia].
    + rewrite H. now apply accepts_at_name.
Qed.

Lemma extraction_leftmost_longest_witness :
  exists pre q1 q2 post,
    Example.one_line_config
    = pre ++ assignment q1 (py "demo_app" ++ [dquote] ++ py ", db_url="
                            ++ [dquote] ++ py "sqlite:///pynecone.db") q2
      ++ comma :: post.
Proof.
  destruct (extraction_leftmost_longest Example.one_line_config
              (py "demo_app" ++ [dquote] ++ py ", db_url=" ++ [dquote]
               ++ py "sqlite:///pynecone.db") eq_refl)
    as [pre [q1 [q2 [post [H _]]]]].
  exists pre, q1, q2, post. exact H.
Defined.

(** X5: the extractor finds nothing - and [deploy] stops with the error
    on the missing field - exactly when the text holds no
    [app_name=<quote><name><quote>,] with a non-empty name free of line
    breaks. *)
Theorem extraction_fails_iff (text : str) :
  search_app_name text = None
  <-> (forall pre q1 name q2 post,
          is_quote q1 = true -> is_quote q2 = true ->
          name <> [] -> Forall (fun c => c <> newline) name ->
          text <> pre ++ assignment q1 name q2 ++ comma :: post).
Proof.
  split.
  - intros Hnone pre q1 name q2 post Hq1 Hq2 Hne Hnl ->.
    rewrite assignment_comma in Hnone. revert Hnone.
    apply search_app_name_found. now apply match_here_complete.
  - intros H. destruct (search_app_name text) as [g|] eqn:E; [|reflexivity].
    exfalso. apply search_app_name_sound in E.
    destruct E as [pre [q1 [q2 [post [Hs [Hq1 [Hq2 [Hne Hnl]]]]]]]].
    apply (H pre q1 g q2 post); try assumption.
    now rewrite assignment_comma.
Qed.

Lemma extraction_fails_iff_witness :
  search_app_name Example.no_comma_config = None
  /\ Example.no_comma_config
     <> py "config = pc.Config(" ++ assignment dquote (py "demo_app") dquote
        ++ comma :: py ")".
Proof.
  split; [reflexivity|].
  apply (proj1 (extraction_fails_iff Example.no_comma_config) eq_refl);
    try reflexivity; [discriminate|].
  repeat (constructor; [discriminate|]). constructor.
Defined.

(** ** The checks and the two first requests (lines 25-63) *)

Section Checks.
Variable w : World.
Variables (pcconfig_path : str) (private : bool) (token : option str).
Variable root : node.

Lemma run_config_missing :
  fs_is_file root (cwd w) (config_path w pcconfig_path) = false ->
  run w pcconfig_path private token root
  = ({| fs := root; log := [] |},
     inl (ValueError (py "Could not find pcconfig file at "
                      ++ path_str (config_path w pcconfig_path)))).
Proof.
  intros H. unfold run, deploy. fold (config_path w pcconfig_path).
  exec. rewrite H. reflexivity.
Qed.

Lemma run_app_folder_missing (text app_name : str) :
  lookup root (cwd w) (config_path w pcconfig_path) = Some (File text) ->
  search_app_name text = Some app_name ->
  fs_is_dir root (cwd w) (app_path_of w pcconfig_path app_name) = false ->
  run w pcconfig_path private token root
  = ({| fs := root; log := [] |},
     inl (ValueError (py "Could not find app folder at "
                      ++ path_str (app_path_of w pcconfig_path app_name)))).
Proof.
  intros Hcfg Hname Happ. unfold run, deploy.
  fold (config_path w pcconfig_path). fold (config_dir w pcconfig_path).
  exec. unfold fs_is_file.
  repeat (progress (rewrite ?Hcfg, ?Hname;
                    fold (app_path_of w pcconfig_path app_name);
                    rewrite ?Happ; exec)).
  reflexivity.
Qed.

Lemma run_assets_folder_missing (text app_name : str) :
  lookup root (cwd w) (config_path w pcconfig_path) = Some (File text) ->
  search_app_name text = Some app_name ->
  fs_is_dir root (cwd w) (app_path_of w pcconfig_path app_name) = true ->
  fs_is_dir root (cwd w) (assets_path_of w pcconfig_path) = false ->
  run w pcconfig_path private token root
  = ({| fs := root; log := [] |},
     inl (ValueError (py "Could not find assets folder at "
                      ++ path_str (assets_path_of w pcconfig_path)))).
Proof.
  intros Hcfg Hname Happ Hassets. unfold run, deploy.
  fold (config_path w pcconfig_path). fold (config_dir w pcconfig_path).
  fold (assets_path_of w pcconfig_path).
  exec. unfold fs_is_file.
  repeat (progress (rewrite ?Hcfg, ?Hname;
                    fold (app_path_of w pcconfig_path app_name);
                    rewrite ?Happ, ?Hassets; exec)).
  reflexivity.
Qed.

Lemma run_whoami_raises (app_name : str) (e : exn) :
  passes_checks w pcconfig_path root app_name ->
  whoami_reply w token = inl e ->
  run w pcconfig_path private token root
  = ({| fs := root; log := [Whoami token] |}, inl e).
Proof.
  intros [[text [Hcfg Hname]] [Happ Hassets]] Hwho. unfold run, deploy.
  fold (config_path w pcconfig_path). fold (config_dir w pcconfig_path).
  fold (assets_path_of w pcconfig_path).
  exec. unfold fs_is_file.
  repeat (progress (rewrite ?Hcfg, ?Hname;
                    fold (app_path_of w pcconfig_path app_name);
                    rewrite ?Happ, ?Hassets, ?Hwho; exec)).
  reflexivity.
Qed.

(** Every way a run can go. *)
Lemma run_cases st' r :
  run w pcconfig_path private token root = (st', r) ->
  (st' = {| fs := root; log := [] |} /\ exists msg, r = inl (ValueError msg))
  \/ (exists app_name e,
         passes_checks w pcconfig_path root app_name
         /\ whoami_reply w token = inl e
         /\ st' = {| fs := root; log := [Whoami token] |} /\ r = inl e)
  \/ (exists app_name username e,
         passes_checks w pcconfig_path root app_name
         /\ whoami_reply w token = inr username
         /\ duplicate_reply w (repo_id_of w username app_name) private token
            = inl e
         /\ st' = {| fs := root;
                     log := [Whoami token;
                             Print (py "Repo ID: "
                                    ++ repo_id_of w username app_name);
                             PostDuplicate (repo_id_of w username app_name)
                                           private token] |}
         /\ r = inl e)
  \/ (exists app_name username status,
         reaches_provision w pcconfig_path private token root app_name
                           username status
         /\ match is_new_after status with
            | None =>
                st' = provisioned w private token root app_name username status
                /\ r = inl (UnboundLocalError (py "is_new"))
            | Some true =>
                match setup_new w (repo_id_of w username app_name)
                        (curated_app_name (unicode w) app_name) app_name
                        (space_url_embed_of w username app_name) token []
                        (provisioned w private token root app_name username status) with
                | (st1, inl e) => st' = st1 /\ r = inl e
                | (st1, inr setup) =>
                    (st', r)
                    = after_setup w true (repo_id_of w username app_name)
                        app_name (space_url_embed_of w username app_name)
                        (app_path_of w pcconfig_path app_name)
                        (assets_path_of w pcconfig_path) token setup st1
                end
            | Some false =>
                (st', r)
                = after_setup w false (repo_id_of w username app_name)
                    app_name (space_url_embed_of w username app_name)
                    (app_path_of w pcconfig_path app_name)
                    (assets_path_of w pcconfig_path) token []
                    {| fs := root;
                       log := provision_log w private token username app_name
                                            status
                              ++ [Print (py "  Space already configured. Do not update README.md, Dockerfile and pcconfig.py")] |}
            end).
Proof.
  intros Hrun.
  destruct (fs_is_file root (cwd w) (config_path w pcconfig_path)) eqn:Hfile.
  2:{ rewrite (run_config_missing Hfile) in Hrun. injection Hrun as <- <-.
      left. eauto. }
  unfold fs_is_file in Hfile.
  destruct (lookup root (cwd w) (config_path w pcconfig_path))
    as [[text|es]|] eqn:Hcfg; try discriminate.
  destruct (search_app_name text) as [app_name|] eqn:Hname.
  2:{ rewrite (run_without_app_name w pcconfig_path private token root text
                 Hcfg Hname) in Hrun.
      injection Hrun as <- <-. left. eauto. }
  destruct (fs_is_dir root (cwd w) (app_path_of w pcconfig_path app_name))
    eqn:Happ.
  2:{ rewrite (run_app_folder_missing text app_name Hcfg Hname Happ) in Hrun.
      injection Hrun as <- <-. left. eauto. }
  destruct (fs_is_dir root (cwd w) (assets_path_of w pcconfig_path))
    eqn:Hassets.
  2:{ rewrite (run_assets_folder_missing text app_name Hcfg Hname Happ
                 Hassets) in Hrun.
      injection Hrun as <- <-. left. eauto. }
  assert (Hchecks : passes_checks w pcconfig_path root app_name)
    by (repeat split; eauto).
  destruct (whoami_reply w token) as [e|username] eqn:Hwho.
  { rewrite (run_whoami_raises app_name e Hchecks Hwho) in Hrun.
    injection Hrun as <- <-. right. left. exists app_name, e. auto. }
  destruct (duplicate_reply w (repo_id_of w username app_name) private token)
    as [e|status] eqn:Hdup.
  { rewrite (deploy_post_raises w pcconfig_path private token root text
               app_name username e Hcfg Hname Happ Hassets Hwho Hdup) in Hrun.
    injection Hrun as <- <-. right. right. left.
    exists app_name, username, e. auto. }
  right. right. right. exists app_name, username, status.
  assert (Hreach : reaches_provision w pcconfig_path private token root
                                     app_name username status)
    by (repeat split; eauto).
  split; [exact Hreach|].
  rewrite (deploy_run w pcconfig_path private token root _ _ _ Hreach) in Hrun.
  fold (provisioned w private token root app_name username status) in Hrun.
  destruct (is_new_after status) as [[|]|].
  - rewrite push_run in Hrun.
    destruct (setup_new w _ _ _ _ _ _ _) as [st1 [e|setup]].
    + now injection Hrun as <- <-.
    + now symmetry.
  - rewrite push_update in Hrun. now symmetry.
  - rewrite push_unbound in Hrun. now injection Hrun as <- <-.
Qed.

End Checks.

(** X6: a failed check stops the run before anything is asked of the
    backend or printed: the error is a [ValueError] that names the path
    that was looked for - the config file, then the app folder, then the
    assets folder, in this order. *)
Theorem failed_check_stops_silently (w : World) (pcconfig_path : str)
        (private : bool) (token : option str) (root : node) :
  (fs_is_file root (cwd w) (config_path w pcconfig_path) = false ->
   run w pcconfig_path private token root
   = ({| fs := root; log := [] |},
      inl (ValueError (py "Could not find pcconfig file at "
                       ++ path_str (config_path w pcconfig_path)))))
  /\ (forall text app_name,
         lookup root (cwd w) (config_path w pcconfig_path) = Some (File text) ->
         search_app_name text = Some app_name ->
         (fs_is_dir root (cwd w) (app_path_of w pcconfig_path app_name) = false ->
          run w pcconfig_path private token root
          = ({| fs := root; log := [] |},
             inl (ValueError (py "Could not find app folder at "
                              ++ path_str (app_path_of w pcconfig_path
                                                       app_name)))))
         /\ (fs_is_dir root (cwd w) (app_path_of w pcconfig_path app_name) = true ->
             fs_is_dir root (cwd w) (assets_path_of w pcconfig_path) = false ->
             run w pcconfig_path private token root
             = ({| fs := root; log := [] |},
                inl (ValueError (py "Could not find assets folder at "
                                 ++ path_str (assets_path_of w pcconfig_path))))))
  /\ (forall st' r,
         run w pcconfig_path private token root = (st', r) ->
         log st' <> [] ->
         exists app_name, passes_checks w pcconfig_path root app_name).
Proof.
  split; [apply run_config_missing|]. split.
  - intros text app_name Hcfg Hname. split.
    + now apply run_app_folder_missing with (text := text).
    + now apply run_assets_folder_missing with (text := text).
  - intros st' r Hrun Hlog.
    destruct (run_cases _ _ _ _ _ _ _ Hrun)
      as [[-> _]|[[a [e [H _]]]|[[a [u [e [H _]]]]|[a [u [s [H _]]]]]]];
      try (exists a; exact H).
    + now contradiction Hlog.
    + exists a. destruct H as [H1 [H2 [H3 _]]]. repeat split; assumption.
Qed.

Lemma failed_check_stops_silently_witness :
  snd (run (Example.world Example.proj_dir 200) (py "nowhere.py") false None
           Example.demo_disk)
  = inl (ValueError (py "Could not find pcconfig file at /home/me/proj/nowhere.py"))
  /\ snd (run (Example.world Example.proj_dir 200) (py "pcconfig.py") false
              None Layout.no_app_disk)
     = inl (ValueError (py "Could not find app folder at /home/me/proj/demo"))
  /\ snd (run (Example.world Example.proj_dir 200) (py "pcconfig.py") false
              None Layout.no_assets_disk)
     = inl (ValueError (py "Could not find assets folder at /home/me/proj/assets")).
Proof.
  split; [|split].
  - destruct (failed_check_stops_silently
                (Example.world Example.proj_dir 200) (py "nowhere.py") false
                None Example.demo_disk) as [H _].
    rewrite H; reflexivity.
  - destruct (failed_check_stops_silently
                (Example.world Example.proj_dir 200) (py "pcconfig.py") false
                None Layout.no_app_disk) as [_ [H _]].
    destruct (H (Example.config_text (py "demo")) (py "demo") eq_refl eq_refl)
      as [H1 _].
    rewrite H1; reflexivity.
  - destruct (failed_check_stops_silently
                (Example.world Example.proj_dir 200) (py "pcconfig.py") false
                None Layout.no_assets_disk) as [_ [H _]].
    destruct (H (Example.config_text (py "demo")) (py "demo") eq_refl eq_refl)
      as [_ H2].
    rewrite H2; reflexivity.
Defined.

(** X7: an exception of the identity lookup or of the duplicate request
    leaves [deploy] as it is: after a failed lookup nothing else was
    asked, after a failed request nothing was downloaded, built or
    committed. *)
Theorem request_errors_propagate (w : World) (pcconfig_path : str)
        (private : bool) (token : option str) (root : node)
        (app_name : str) (e : exn) :
  passes_checks w pcconfig_path root app_name ->
  (whoami_reply w token = inl e ->
   run w pcconfig_path private token root
   = ({| fs := root; log := [Whoami token] |}, inl e))
  /\ (forall username,
         whoami_reply w token = inr username ->
         duplicate_reply w (repo_id_of w username app_name) private token
         = inl e ->
         run w pcconfig_path private token root
         = ({| fs := root;
               log := [Whoami token;
                       Print (py "Repo ID: " ++ repo_id_of w username app_name);
                       PostDuplicate (repo_id_of w username app_name)
                                     private token] |},
            inl e)).
Proof.
  intros Hchecks. split; [now apply run_whoami_raises with (app_name := app_name)|].
  intros username Hwho Hdup.
  destruct Hchecks as [[text [Hcfg Hname]] [Happ Hassets]].
  now apply deploy_post_raises with (text := text).
Qed.

Lemma request_errors_propagate_witness :
  run Layout.logged_out (py "pcconfig.py") false None Example.demo_disk
  = ({| fs := Example.demo_disk; log := [Whoami None] |},
     inl (External (py "LocalTokenNotFoundError")))
  /\ snd (run Layout.offline (py "pcconfig.py") true None Example.demo_disk)
     = inl (External (py "ConnectionError")).
Proof.
  split.
  - apply (request_errors_propagate Layout.logged_out (py "pcconfig.py")
             false None Example.demo_disk (py "demo")); [|reflexivity].
    repeat split; try reflexivity.
    exists (Example.config_text (py "demo")). split; reflexivity.
  - destruct (request_errors_propagate Layout.offline (py "pcconfig.py")
                true None Example.demo_disk (py "demo")
                (External (py "ConnectionError"))) as [_ H].
    + repeat split; try reflexivity.
      exists (Example.config_text (py "demo")). split; reflexivity.
    + rewrite (H (py "alice")); reflexivity.
Defined.

(** ** The synchronisation (lines 152-185) *)







Lemma count_delete_file_in_sync (root : node) (cwd : list str)
      (app_name : str) (app_path assets_path : path) (is_new : bool) :
  count_delete (py "requirements.txt") false
               (Delete (py "assets") true
                :: loop_adds root cwd (fun _ => true) assets_path
                ++ Delete (if is_new then py "default_app" else app_name) true
                   :: loop_adds root cwd not_cache app_path) = 0.
Proof.
  change (Delete (py "assets") true :: ?l)
    with ([Delete (py "assets") true] ++ l).
  rewrite !count_delete_app, count_delete_loop_adds.
  change (Delete ?n true :: ?l) with ([Delete n true] ++ l).
  rewrite !count_delete_app, count_delete_loop_adds.
  unfold count_delete. cbn [filter op_eqb_delete Bool.eqb].
  now rewrite !andb_false_r.
Qed.

(** X9: requirements.txt is synchronised by a deletion immediately
    followed by the upload of the local file, right after the operations
    of the setup and before the deletion of the assets - when the file
    exists next to the app folder.  When it does not, no deletion of
    requirements.txt is queued at all. *)
Theorem requirements_sync (w : World) (pcconfig_path : str)
        (private : bool) (token : option str) (root : node) (st' : state)
        (r : result unit) (repo_id message : str) (ops : list operation)
        (tok : option str) :
  run w pcconfig_path private token root = (st', r) ->
  In (CreateCommit repo_id message ops tok) (log st') ->
  exists app_name username status setup rest,
    reaches_provision w pcconfig_path private token root app_name username
                      status
    /\ (forall op, In op setup -> exists name data, op = Add name (Bytes data))
    /\ (fs_is_file (fs st') (cwd w)
                   (requirements_path_of w pcconfig_path app_name) = true ->
        ops = setup
              ++ Delete (py "requirements.txt") false
                 :: Add (py "requirements.txt")
                        (LocalFile (requirements_path_of w pcconfig_path
                                                         app_name))
                 :: Delete (py "assets") true :: rest
        /\ count_delete (py "requirements.txt") false ops = 1)
    /\ (fs_is_file (fs st') (cwd w)
                   (requirements_path_of w pcconfig_path app_name) = false ->
        ops = setup ++ Delete (py "assets") true :: rest
        /\ count_delete (py "requirements.txt") false ops = 0).
Proof.
  intros Hrun Hin.
  destruct (commit_inv _ _ _ _ _ _ _ _ _ _ _ Hrun Hin)
    as [app_name [username [status [is_new [setup H]]]]].
  destruct H as [Hreach [_ [_ [_ [_ [Hops [Hsetup _]]]]]]].
  pose proof (count_delete_setup (py "requirements.txt") false _ _ _ Hsetup)
    as Hcount.
  eexists app_name, username, status, setup, _.
  split; [exact Hreach|]. split.
  { intros op Hop. destruct is_new.
    - destruct Hsetup as [d1 [d2 [d3 ->]]].
      destruct Hop as [<-|[<-|[<-|[]]]]; eauto.
    - destruct Hsetup as [-> _]. destruct Hop. }
  unfold requirements_path_of.
  split; intros Hfile; rewrite Hops; unfold sync_ops; rewrite Hfile;
    (split; [reflexivity|]);
    rewrite count_delete_app, Hcount; cbn [app];
    [change (Delete (py "requirements.txt") false :: Add ?n ?p :: ?l)
       with ([Delete (py "requirements.txt") false; Add n p] ++ l);
     rewrite count_delete_app|];
    rewrite count_delete_file_in_sync; reflexivity.
Qed.

Lemma requirements_sync_witness :
  exists ops,
    Example.committed
      (run (Example.world Example.proj_dir 409) (py "pcconfig.py") false None
           Example.demo_disk) = Some ops
    /\ count_delete (py "requirements.txt") false ops = 0.
Proof.
  destruct demo_update_commit as [ops [E Hin]].
  exists ops. split; [exact E|].
  destruct (requirements_sync _ _ _ _ _ _ _ _ _ _ _ (run_pair _ _ _ _ _) Hin)
    as [app_name [username [status [setup [rest [Hreach [_ [_ H]]]]]]]].
  destruct Hreach as [[text [Hcfg Hname]] _].
  vm_compute in Hcfg. injection Hcfg as <-.
  vm_compute in Hname. injection Hname as <-.
  apply H. vm_compute. reflexivity.
Defined.

(** ** What a run asks of the backend (lines 46-196) *)

Section Requests.
Variable w : World.
Variable P : event -> Prop.

Lemma emits_readme_text (app_name : str) :
  P (Print found_locally) -> P (Print not_found_locally) ->
  emits P (readme_text w app_name).
Proof.
  intros Hf Hn st st' r H. rewrite readme_text_run in H.
  destruct (walk [] (fs st) (cwd w ++ [py "README.md"])) as [[c|es]|];
    injection H as <- _; cbn [log]; eexists; split; try reflexivity;
    repeat constructor; assumption.
Qed.

Lemma emits_RepoCard_load_readme (name : str) (token : option str) :
  P (Download name (py "README.md") token) ->
  emits P (RepoCard_load w name token).
Proof. intros HP. unfold RepoCard_load. triple. Qed.

Lemma emits_setup_new_gen repo_id curated app_name embed token ops :
  P (Print found_locally) -> P (Print not_found_locally) ->
  P (Print (py "  Setup pcconfig.py")) -> P (Print (py "  Setup Dockerfile")) ->
  (forall f, In f [py "README.md"; py "pcconfig_docker.py"; py "Dockerfile"] ->
             P (Download repo_id f token)) ->
  (forall op, P (NewOperation op)) ->
  emits P (setup_new w repo_id curated app_name embed token ops).
Proof.
  intros Hf Hn Hp Hd Hdown Hop.
  pose proof (emits_readme_text app_name Hf Hn) as Hreadme.
  pose proof (emits_RepoCard_load_readme repo_id token
                (Hdown _ (or_introl eq_refl))) as Hcard.
  pose proof (Hdown _ (or_intror (or_introl eq_refl))) as Hd2.
  pose proof (Hdown _ (or_intror (or_intror (or_introl eq_refl)))) as Hd3.
  unfold setup_new, setup_readme, setup_pcconfig, setup_dockerfile.
  triple.
Qed.

Lemma sync_events_forall root app_name app_path assets_path is_new :
  P (Print (py "  Sync requirements.txt")) ->
  P (Print (py "  requirements.txt not found")) ->
  P (Print (py "  Sync assets/ folder")) ->
  P (Print (py "  Sync app folder")) ->
  (forall op, P (NewOperation op)) ->
  Forall P (sync_events root (cwd w) app_name app_path assets_path is_new).
Proof.
  intros H1 H2 H3 H4 Hop.
  assert (Hmap : forall l, Forall P (map NewOperation l))
    by (intros l; induction l; simpl; constructor; auto).
  unfold sync_events.
  apply Forall_app; split.
  { destruct (fs_is_file root (cwd w) _); repeat (constructor; auto). }
  apply Forall_app; split; [repeat (constructor; auto)|].
  apply Forall_app; split; [apply Hmap|].
  apply Forall_app; split; [repeat (constructor; auto)|apply Hmap].
Qed.

Lemma provision_log_forall private token username app_name status :
  P (Whoami token) ->
  P (Print (py "Repo ID: " ++ repo_id_of w username app_name)) ->
  P (PostDuplicate (repo_id_of w username app_name) private token) ->
  P (Print (py "Space already exist: " ++ space_url_of w username app_name)) ->
  P (Print (py "New Space created: " ++ space_url_of w username app_name)) ->
  Forall P (provision_log w private token username app_name status).
Proof.
  intros H1 H2 H3 H4 H5. unfold provision_log.
  destruct (is_http_error status); [destruct (status =? 409)%Z|];
    cbn [app]; repeat (constructor; auto).
Qed.

End Requests.

(** X10: everything a run asks of the backend goes to one repository
    id, with the token and the visibility flag [deploy] was called with;
    the only files it downloads are README.md, pcconfig_docker.py and
    Dockerfile of that repository. *)
Theorem one_repository_one_token (w : World) (pcconfig_path : str)
        (private : bool) (token : option str) (root : node) (st' : state)
        (r : result unit) :
  run w pcconfig_path private token root = (st', r) ->
  exists repo_id, Forall (talks_to repo_id private token) (log st').
Proof.
  intros Hrun.
  destruct (run_cases _ _ _ _ _ _ _ Hrun)
    as [[-> _]|[[a [e [_ [_ [-> _]]]]]
               |[[a [u [e [_ [_ [_ [-> _]]]]]]]|[a [u [s [Hreach H]]]]]]].
  - exists []. constructor.
  - exists []. repeat constructor.
  - exists (repo_id_of w u a). repeat constructor.
  - exists (repo_id_of w u a).
    assert (Hprov : Forall (talks_to (repo_id_of w u a) private token)
                           (provision_log w private token u a s))
      by (apply provision_log_forall; simpl; auto).
    assert (Hsync : forall fs0 is_new,
               Forall (talks_to (repo_id_of w u a) private token)
                      (sync_events fs0 (cwd w) a (app_path_of w pcconfig_path a)
                                   (assets_path_of w pcconfig_path) is_new))
      by (intros; apply sync_events_forall; simpl; auto).
    assert (Htail : forall st1 is_new setup,
               Forall (talks_to (repo_id_of w u a) private token) (log st1) ->
               Forall (talks_to (repo_id_of w u a) private token)
                      (log (fst (after_setup w is_new (repo_id_of w u a) a
                                   (space_url_embed_of w u a)
                                   (app_path_of w pcconfig_path a)
                                   (assets_path_of w pcconfig_path) token
                                   setup st1)))).
    { intros st1 is_new setup H1. unfold after_setup. cbn [fst log].
      apply Forall_app; split; [exact H1|].
      apply Forall_app; split; [apply Hsync|].
      constructor; [simpl; auto|].
      destruct (commit_reply w _ _ _ token); repeat constructor. }
    assert (Hemit : emits (talks_to (repo_id_of w u a) private token)
                          (setup_new w (repo_id_of w u a)
                             (curated_app_name (unicode w) a) a
                             (space_url_embed_of w u a) token []))
      by (apply emits_setup_new_gen; simpl; auto).
    destruct (is_new_after s) as [[|]|].
    + destruct (setup_new w _ _ _ _ _ _ _) as [st1 [e|setup]] eqn:Hsetup;
        destruct (Hemit _ _ _ Hsetup) as [evs [E F]];
        cbn [log provisioned] in E.
      * destruct H as [-> _]. rewrite E. apply Forall_app; auto.
      * replace st' with (fst (st', r)) by reflexivity. rewrite H.
        apply Htail. rewrite E. apply Forall_app; auto.
    + replace st' with (fst (st', r)) by reflexivity. rewrite H.
      apply Htail. cbn [log]. apply Forall_app; split; [exact Hprov|].
      repeat constructor.
    + destruct H as [-> _]. exact Hprov.
Qed.

Lemma one_repository_one_token_witness :
  exists repo_id,
    Forall (talks_to repo_id true (Some (py "hf_secret")))
           (log (fst (run (Example.world Example.proj_dir 200)
                          (py "pcconfig.py") true (Some (py "hf_secret"))
                          Example.demo_disk))).
Proof.
  apply (one_repository_one_token _ _ _ _ _ _ _ (run_pair _ _ _ _ _)).
Defined.

(** ** How a run ends (lines 188-199) *)

Ltac other_line :=
  cbn [not_success]; split;
  [let H := fresh in intros H; vm_compute in H; discriminate|reflexivity].

Section Ending.
Variable w : World.

Lemma calm_not_in (evs : list event) :
  Forall calm evs ->
  ~ In (Print success_line) evs
  /\ filter is_create_commit evs = [].
Proof.
  induction 1 as [|e evs [Hs Hc] _ [IH1 IH2]]; [split; [intros []|reflexivity]|].
  split.
  - intros [E|Hin]; [subst e; now apply Hs|now apply IH1].
  - simpl. now rewrite Hc.
Qed.

Lemma after_setup_outcome is_new repo_id app_name embed app_path assets_path
      token setup st1 st' r :
  Forall calm (log st1) ->
  (st', r) = after_setup w is_new repo_id app_name embed app_path assets_path
                         token setup st1 ->
  (r = inr tt <->
   exists rid msg ops tok,
     In (CreateCommit rid msg ops tok) (log st')
     /\ commit_reply w rid msg ops tok = inr tt)
  /\ (In (Print success_line) (log st') <-> r = inr tt).
Proof.
  intros Hcalm E.
  destruct (calm_not_in _ Hcalm) as [Hno Hnc].
  assert (Hsync : Forall calm
                    (sync_events (fs st1) (cwd w) app_name app_path assets_path
                                 is_new))
    by (apply sync_events_forall; try other_line; intros; split; exact I || reflexivity).
  destruct (calm_not_in _ Hsync) as [Hno2 Hnc2].
  unfold after_setup in E. injection E as -> ->. cbn [log].
  set (ops := setup ++ sync_ops (fs st1) (cwd w) app_name app_path assets_path
                                is_new).
  set (msg := commit_message_of is_new app_name).
  split.
  - split.
    + intros Hr. exists repo_id, msg, ops, token. split; [|exact Hr].
      apply in_or_app. right. apply in_or_app. right. now left.
    + intros [rid [m [o [t [Hin Hok]]]]].
      assert (Hf : In (CreateCommit rid m o t)
                      (filter is_create_commit
                         (log st1
                          ++ sync_events (fs st1) (cwd w) app_name app_path
                                         assets_path is_new
                          ++ CreateCommit repo_id msg ops token
                             :: match commit_reply w repo_id msg ops token with
                                | inl _ => []
                                | inr _ =>
                                    [Print (py "Your app has been successfully deployed!");
                                     Print (py "Check it out: " ++ embed)]
                                end)))
        by (apply filter_In; split; [exact Hin|reflexivity]).
      rewrite !filter_app, Hnc, Hnc2 in Hf. cbn [app filter is_create_commit] in Hf.
      destruct (commit_reply w repo_id msg ops token) as [e|[]] eqn:Hreply;
        [|reflexivity].
      cbn [filter] in Hf. destruct Hf as [Hf|[]].
      injection Hf as <- <- <- <-. congruence.
  - split.
    + intros Hin. apply in_app_or in Hin. destruct Hin as [Hin|Hin];
        [now apply Hno in Hin|].
      apply in_app_or in Hin. destruct Hin as [Hin|Hin];
        [now apply Hno2 in Hin|].
      destruct Hin as [Hin|Hin]; [discriminate|].
      destruct (commit_reply w repo_id msg ops token) as [e|[]];
        [destruct Hin|reflexivity].
    + intros Hr. rewrite Hr. apply in_or_app. right. apply in_or_app. right.
      right. left. reflexivity.
Qed.

End Ending.

(** X11: [deploy] returns normally exactly when it has committed and the
    backend has accepted the commit; in every other case it stops with an
    exception.  The line "Your app has been successfully deployed!" is
    printed exactly when it returns normally. *)
Theorem returns_iff_commit_accepted (w : World) (pcconfig_path : str)
        (private : bool) (token : option str) (root : node) (st' : state)
        (r : result unit) :
  run w pcconfig_path private token root = (st', r) ->
  (r = inr tt <->
   exists repo_id message ops tok,
     In (CreateCommit repo_id message ops tok) (log st')
     /\ commit_reply w repo_id message ops tok = inr tt)
  /\ (In (Print success_line) (log st') <-> r = inr tt)
  /\ (r = inr tt \/ exists e, r = inl e).
Proof.
  intros Hrun. rewrite <- and_assoc. split; [|destruct r as [e|[]]; eauto].
  assert (Hquiet : forall evs,
             Forall calm evs -> forall e, r = inl e -> log st' = evs ->
             (r = inr tt <->
              exists repo_id message ops tok,
                In (CreateCommit repo_id message ops tok) (log st')
                /\ commit_reply w repo_id message ops tok = inr tt)
             /\ (In (Print success_line) (log st') <-> r = inr tt)).
  { intros evs Hcalm e -> ->.
    destruct (calm_not_in _ Hcalm) as [Hno Hnc].
    split; split; try discriminate.
    - intros [rid [m [o [t [Hin _]]]]]. exfalso.
      eapply no_commit_not_in; eassumption.
    - intros Hin. now apply Hno in Hin. }
  destruct (run_cases _ _ _ _ _ _ _ Hrun)
    as [[-> [msg ->]]|[[a [e [_ [_ [-> ->]]]]]
               |[[a [u [e [_ [_ [_ [-> ->]]]]]]]|[a [u [s [Hreach H]]]]]]].
  - eapply Hquiet; [|reflexivity|reflexivity]. constructor.
  - eapply Hquiet; [|reflexivity|reflexivity].
    repeat constructor.
  - eapply Hquiet; [|reflexivity|reflexivity].
    repeat (constructor; [try other_line; split; exact I || reflexivity|]).
    constructor.
  - assert (Hprov : Forall calm (provision_log w private token u a s)).
    { apply provision_log_forall; try other_line; split; exact I || reflexivity. }
    assert (Hemit : emits calm
                          (setup_new w (repo_id_of w u a)
                             (curated_app_name (unicode w) a) a
                             (space_url_embed_of w u a) token [])).
    { apply emits_setup_new_gen; try other_line;
        intros; split; exact I || reflexivity. }
    destruct (is_new_after s) as [[|]|].
    + destruct (setup_new w _ _ _ _ _ _ _) as [st1 [e|setup]] eqn:Hsetup;
        destruct (Hemit _ _ _ Hsetup) as [evs [E F]];
        cbn [log provisioned] in E.
      * destruct H as [-> ->]. eapply Hquiet; [|reflexivity|exact E].
        apply Forall_app; auto.
      * eapply after_setup_outcome; [|exact H].
        rewrite E. apply Forall_app; auto.
    + eapply after_setup_outcome; [|exact H].
      cbn [log]. apply Forall_app; split; [exact Hprov|].
      constructor; [other_line|constructor].
    + destruct H as [-> ->]. eapply Hquiet; [|reflexivity|reflexivity].
      exact Hprov.
Qed.

Lemma returns_iff_commit_accepted_witness :
  In (Print success_line)
     (log (fst (run (Layout.refusing 409) (py "pcconfig.py") false None
                    Example.demo_disk)))
  <-> snd (run (Layout.refusing 409) (py "pcconfig.py") false None
               Example.demo_disk) = inr tt.
Proof.
  apply (returns_iff_commit_accepted _ _ _ _ _ _ _
           (run_pair (Layout.refusing 409) (py "pcconfig.py") false None
                     Example.demo_disk)).
Defined.

(** ** Splitting, joining and replacing (lines 85-87, 100, 122-126, 144) *)

Lemma split_go_cons (sep : str) (skip : nat) (cur s : str) :
  exists piece rest, split_go sep skip cur s = piece :: rest.
Proof.
  revert skip cur. induction s as [|c s IH]; intros skip cur; cbn [split_go].
  - eauto.
  - destruct skip as [|k]; [|apply IH].
    destruct (starts_with sep (c :: s)); [eauto|apply IH].
Qed.

Lemma join_cons (sep piece : str) (sep' : str) (skip : nat) (cur s : str) :
  join sep (piece :: split_go sep' skip cur s)
  = piece ++ sep ++ join sep (split_go sep' skip cur s).
Proof.
  destruct (split_go_cons sep' skip cur s) as [q [rest ->]]. reflexivity.
Qed.

Lemma join_split_go (old new : str) (skip : nat) (cur s : str) :
  join new (split_go old skip cur s) = rev cur ++ replace_go old new skip s.
Proof.
  revert skip cur. induction s as [|c s IH]; intros skip cur;
    cbn [split_go replace_go].
  - cbn [join]. now rewrite app_nil_r.
  - destruct skip as [|k]; [|apply IH].
    destruct (starts_with old (c :: s)).
    + rewrite join_cons, IH. reflexivity.
    + rewrite IH. cbn [rev]. now rewrite <- app_assoc.
Qed.

Lemma replace_join_split (old new s : str) :
  replace old new s = join new (split old s).
Proof. unfold replace, split. now rewrite join_split_go. Qed.

Lemma replace_go_same (old : str) (skip : nat) (s : str) :
  old <> [] -> replace_go old old skip s = skipn skip s.
Proof.
  intros Hold. revert skip. induction s as [|c s IH]; intros skip.
  - now destruct skip.
  - cbn [replace_go]. destruct skip as [|k]; [|apply IH].
    destruct (starts_with old (c :: s)) eqn:Hs.
    + rewrite IH. apply starts_with_split in Hs.
      destruct old as [|a old']; [congruence|].
      cbn [length skipn app] in Hs. injection Hs as Hc Hs.
      cbn [length Nat.sub skipn]. rewrite Nat.sub_0_r. cbn [app].
      f_equal; [now symmetry|now symmetry].
    + rewrite IH. reflexivity.
Qed.

Lemma replace_go_absent (old new s : str) :
  contains old s = false -> replace_go old new 0 s = s.
Proof.
  induction s as [|c s IH]; [reflexivity|].
  cbn [contains replace_go]. intros H. apply orb_false_iff in H.
  destruct H as [-> H]. now rewrite IH.
Qed.


(** X12: the placeholder replacement of lines 122 and 144 is a split at
    "default_app" followed by a join with the app name, so every
    occurrence found from left to right is replaced; a template without
    the placeholder is uploaded as it is, and so is any template when the
    app is itself called default_app. *)
Theorem placeholder_replacement (app_name text : str) :
  dockerfile_content app_name text
  = join app_name (split (py "default_app") text)
  /\ (contains (py "default_app") text = false ->
      dockerfile_content app_name text = text)
  /\ dockerfile_content (py "default_app") text = text
  /\ forall space_url_embed,
       pcconfig_content space_url_embed app_name text
       = join (space_url_embed ++ py "/pynecone-backend")
              (split (py "https://wauplin-pynecone-on-spaces-template.hf.space/pynecone-backend")
                     (dockerfile_content app_name text)).
Proof.
  unfold pcconfig_content, dockerfile_content.
  split; [apply replace_join_split|].
  split; [apply replace_go_absent|].
  split; [|intros; apply replace_join_split].
  unfold replace. rewrite replace_go_same; [reflexivity|].
  intros H. vm_compute in H. discriminate.
Qed.

Lemma placeholder_replacement_witness :
  dockerfile_content (py "demo") (py "COPY assets assets") = py "COPY assets assets".
Proof.
  destruct (placeholder_replacement (py "demo") (py "COPY assets assets"))
    as [_ [H _]].
  apply H. vm_compute. reflexivity.
Defined.



(** ** Resolving the config path (line 25) *)

Lemma walk_trail (root : node) acc up cur :
  trail root acc up cur ->
  forall cs, walk [] root (rev acc ++ cs) = walk up cur cs.
Proof.
  induction 1 as [|acc up es c x _ IH Hc Hx]; intros cs; [reflexivity|].
  cbn [rev]. rewrite <- app_assoc. cbn [app]. rewrite IH.
  cbn [walk]. now rewrite Hc, Hx.
Qed.

Lemma walk_normalize (root : node) (cs : list str) :
  forall acc up cur n,
    trail root acc up cur ->
    walk up cur cs = Some n ->
    walk [] root (normalize acc cs) = Some n.
Proof.
  induction cs as [|c cs IH]; intros acc up cur n Ht Hw.
  - cbn [normalize]. rewrite <- (app_nil_r (rev acc)).
    now rewrite (walk_trail _ _ _ _ Ht).
  - cbn [walk normalize] in *. destruct cur as [content|es]; [discriminate|].
    destruct (str_eqb c dotdot) eqn:Hc.
    + inversion Ht; subst.
      * cbn [tl]. eapply IH; [apply trail_root|exact Hw].
      * cbn [tl]. eapply IH; [eassumption|exact Hw].
    + destruct (assoc c es) as [x|] eqn:Hx; [|discriminate].
      eapply IH; [|exact Hw]. now apply trail_down.
Qed.

Lemma normalize_plain (cs : list str) :
  forall acc, plain acc = true -> plain (normalize acc cs) = true.
Proof.
  unfold plain. induction cs as [|c cs IH]; intros acc Hacc; cbn [normalize].
  - rewrite forallb_forall in *. intros x Hx. apply Hacc.
    now apply in_rev.
  - destruct (str_eqb c dotdot) eqn:Hc; apply IH.
    + destruct acc as [|a acc]; [reflexivity|].
      cbn [forallb tl] in *. now apply andb_true_iff in Hacc.
    + cbn [forallb]. now rewrite Hc.
Qed.

Lemma normalize_of_plain (cs : list str) :
  forall acc, plain cs = true -> normalize acc cs = rev acc ++ cs.
Proof.
  unfold plain. induction cs as [|c cs IH]; intros acc H; cbn [normalize].
  - now rewrite app_nil_r.
  - cbn [forallb] in H. apply andb_true_iff in H. destruct H as [Hc H].
    apply negb_true_iff in Hc. rewrite Hc, IH by exact H.
    cbn [rev]. now rewrite <- app_assoc.
Qed.

(** X14: [resolve()] of line 25 never loses what the path names: whatever
    the given path leads to in the working directory, the resolved path
    leads to as well, from any working directory; the resolved path is
    absolute, has no [..] left, and resolving it again changes
    nothing. *)
Theorem resolve_keeps_target (root : node) (cwd : list str) (p : path)
        (n : node) :
  lookup root cwd p = Some n ->
  (forall cwd', lookup root cwd' (resolve cwd p) = Some n)
  /\ is_abs (resolve cwd p) = true
  /\ plain (parts (resolve cwd p)) = true
  /\ forall cwd', resolve cwd' (resolve cwd p) = resolve cwd p.
Proof.
  intros H. split; [|split; [reflexivity|split]].
  - intros cwd'. unfold lookup in *. cbn [resolve is_abs parts].
    eapply walk_normalize; [apply trail_root|exact H].
  - cbn [resolve parts]. now apply normalize_plain.
  - intros cwd'. unfold resolve at 1. cbn [resolve is_abs parts].
    unfold resolve. f_equal.
    rewrite (normalize_of_plain (normalize [] _) []); [reflexivity|].
    now apply normalize_plain.
Qed.

Lemma resolve_keeps_target_witness :
  lookup Example.demo_disk Example.proj_dir
         (resolve Example.proj_dir (Path (py "demo/../assets/../pcconfig.py")))
  = Some (File (Example.config_text (py "demo"))).
Proof.
  apply (resolve_keeps_target Example.demo_disk Example.proj_dir
           (Path (py "demo/../assets/../pcconfig.py"))).
  vm_compute. reflexivity.
Defined.

(** ** The template files (lines 110-146) *)



Section Templates.
Variable w : World.


End Templates.



(** ** The commit is the last request (lines 188-199) *)

Lemma split_at_commit (before after l1 l2 : list event) (c e : event) :
  filter is_create_commit before = [] ->
  is_create_commit e = true ->
  before ++ c :: after = l1 ++ e :: l2 ->
  filter is_create_commit after = [] ->
  l1 = before /\ e = c /\ l2 = after.
Proof.
  intros Hb He. revert l1. induction before as [|b before IH]; intros l1 E Ha.
  - destruct l1 as [|x l1]; cbn [app] in E.
    + injection E as <- <-. auto.
    + injection E as <- ->. exfalso.
      assert (Hin : In e (filter is_create_commit (l1 ++ e :: l2)))
        by (apply filter_In; split; [apply in_elt|exact He]).
      now rewrite Ha in Hin.
  - cbn [filter] in Hb. destruct (is_create_commit b) eqn:Hcb; [discriminate|].
    destruct l1 as [|x l1]; cbn [app] in E.
    + injection E as <- _. congruence.
    + injection E as <- E. destruct (IH Hb l1 E Ha) as [-> [-> ->]]. auto.
Qed.

Lemma calm_no_commit (evs : list event) :
  Forall calm evs -> filter is_create_commit evs = [].
Proof. intros H. now apply calm_not_in. Qed.

Lemma after_setup_last (w : World) is_new repo_id app_name embed app_path
      assets_path token setup st1 st' r l1 e l2 :
  Forall calm (log st1) ->
  (st', r) = after_setup w is_new repo_id app_name embed app_path assets_path
                         token setup st1 ->
  log st' = l1 ++ e :: l2 ->
  is_create_commit e = true ->
  Forall (fun x => is_request x = false) l2
  /\ filter is_create_commit l1 = [].
Proof.
  intros Hcalm E Hlog He.
  assert (Hsync : Forall calm
                    (sync_events (fs st1) (cwd w) app_name app_path assets_path
                                 is_new))
    by (apply sync_events_forall; try other_line; intros; split; exact I || reflexivity).
  unfold after_setup in E. injection E as -> _. cbn [log] in Hlog.
  rewrite app_assoc in Hlog.
  assert (Hb : filter is_create_commit
                 (log st1 ++ sync_events (fs st1) (cwd w) app_name app_path
                                         assets_path is_new) = [])
    by (apply calm_no_commit, Forall_app; auto).
  apply split_at_commit in Hlog; [|exact Hb|exact He|].
  - destruct Hlog as [-> [-> ->]]. split; [|exact Hb].
    destruct (commit_reply w _ _ _ _); repeat constructor.
  - destruct (commit_reply w _ _ _ _); reflexivity.
Qed.

(** X16: a run commits at most once, and the commit is the last thing it
    asks of the backend: before it there is no other commit, after it
    only console output. *)
Theorem commit_is_last_request (w : World) (pcconfig_path : str)
        (private : bool) (token : option str) (root : node) (st' : state)
        (r : result unit) (l1 l2 : list event) (e : event) :
  run w pcconfig_path private token root = (st', r) ->
  log st' = l1 ++ e :: l2 ->
  is_create_commit e = true ->
  Forall (fun x => is_request x = false) l2
  /\ filter is_create_commit l1 = [].
Proof.
  intros Hrun Hlog He.
  assert (Hquiet : forall evs,
             Forall calm evs -> log st' = evs ->
             Forall (fun x => is_request x = false) l2
             /\ filter is_create_commit l1 = []).
  { intros evs Hcalm E. exfalso.
    assert (Hin : In e (filter is_create_commit (log st')))
      by (apply filter_In; split; [rewrite Hlog; apply in_elt|exact He]).
    rewrite E, (calm_no_commit _ Hcalm) in Hin. exact Hin. }
  destruct (run_cases _ _ _ _ _ _ _ Hrun)
    as [[-> _]|[[a [e0 [_ [_ [-> _]]]]]
               |[[a [u [e0 [_ [_ [_ [-> _]]]]]]]|[a [u [s [Hreach H]]]]]]].
  - eapply Hquiet; [|reflexivity]. constructor.
  - eapply Hquiet; [|reflexivity]. repeat constructor.
  - eapply Hquiet; [|reflexivity].
    repeat (constructor; [try other_line; split; exact I || reflexivity|]).
    constructor.
  - assert (Hprov : Forall calm (provision_log w private token u a s)).
    { apply provision_log_forall; try other_line; split; exact I || reflexivity. }
    assert (Hemit : emits calm
                          (setup_new w (repo_id_of w u a)
                             (curated_app_name (unicode w) a) a
                             (space_url_embed_of w u a) token [])).
    { apply emits_setup_new_gen; try other_line;
        intros; split; exact I || reflexivity. }
    destruct (is_new_after s) as [[|]|].
    + destruct (setup_new w _ _ _ _ _ _ _) as [st1 [e0|setup]] eqn:Hsetup;
        destruct (Hemit _ _ _ Hsetup) as [evs [E F]];
        cbn [log provisioned] in E.
      * destruct H as [-> _]. eapply Hquiet; [|exact E].
        apply Forall_app; auto.
      * eapply after_setup_last; [|exact H|exact Hlog|exact He].
        rewrite E. apply Forall_app; auto.
    + eapply after_setup_last; [|exact H|exact Hlog|exact He].
      cbn [log]. apply Forall_app; split; [exact Hprov|].
      constructor; [other_line|constructor].
    + destruct H as [-> _]. eapply Hquiet; [|reflexivity]. exact Hprov.
Qed.

Lemma commit_is_last_request_witness :
  exists l1 e l2,
    log (fst (run (Example.world Example.proj_dir 409) (py "pcconfig.py")
                  false None Example.demo_disk)) = l1 ++ e :: l2
    /\ is_create_commit e = true
    /\ Forall (fun x => is_request x = false) l2
    /\ filter is_create_commit l1 = [].
Proof.
  destruct demo_update_commit as [ops [_ Hin]].
  apply in_split in Hin. destruct Hin as [l1 [l2 Hlog]].
  exists l1, (CreateCommit (py "alice/demo") (py "Update demo") ops None), l2.
  split; [exact Hlog|]. split; [reflexivity|].
  exact (commit_is_last_request _ _ _ _ _ _ _ _ _ _
           (run_pair _ _ _ _ _) Hlog eq_refl).
Defined.

(** ** The words of the card title (lines 85-87) *)

Section Title.
Variable U : Unicode.

Lemma split_dash_step (cur : str) (c : char) (s : str) :
  split_go [dash] 0 cur (c :: s)
  = if (c =? dash)%N then rev cur :: split_go [dash] 0 [] s
    else split_go [dash] 0 (c :: cur) s.
Proof.
  cbn [split_go starts_with length Nat.sub]. rewrite N.eqb_sym.
  now rewrite andb_true_r.
Qed.

Lemma concat_split_dash (s : str) :
  forall cur,
    concat (split_go [dash] 0 cur s)
    = rev cur ++ filter (fun c => negb (c =? dash)%N) s.
Proof.
  induction s as [|c s IH]; intros cur.
  - cbn [split_go concat filter]. reflexivity.
  - rewrite split_dash_step. cbn [filter].
    destruct (c =? dash)%N; cbn [negb].
    + cbn [concat]. now rewrite IH.
    + rewrite IH. cbn [rev]. now rewrite <- app_assoc.
Qed.

Lemma in_split_dash (s : str) :
  forall cur piece c,
    In piece (split_go [dash] 0 cur s) -> In c piece ->
    In c cur \/ (In c s /\ c <> dash).
Proof.
  induction s as [|x s IH]; intros cur piece c Hp Hc.
  - cbn [split_go] in Hp. destruct Hp as [<-|[]]. left. now apply in_rev.
  - rewrite split_dash_step in Hp. destruct (x =? dash)%N eqn:E.
    + destruct Hp as [<-|Hp]; [left; now apply in_rev|].
      destruct (IH _ _ _ Hp Hc) as [[]|[H1 H2]]. right. split; [now right|exact H2].
    + destruct (IH _ _ _ Hp Hc) as [[<-|H]|[H1 H2]].
      * right. split; [now left|]. now apply N.eqb_neq.
      * now left.
      * right. split; [now right|exact H2].
Qed.

Lemma split_dash_nonempty (s : str) :
  forall cur,
    cur <> [] \/ (s <> [] /\ starts_with_dash s = false) ->
    has_double_dash s = false ->
    ends_with_dash s = false ->
    Forall (fun piece => piece <> []) (split_go [dash] 0 cur s).
Proof.
  induction s as [|c s IH]; intros cur Hcur Hd He.
  - destruct Hcur as [Hcur|[Hs _]]; [|congruence].
    cbn [split_go]. constructor; [|constructor].
    intros E. apply Hcur. destruct cur as [|a cur]; [reflexivity|].
    cbn [rev] in E. now destruct (rev cur).
  - rewrite split_dash_step. destruct (c =? dash)%N eqn:E.
    + destruct Hcur as [Hcur|[_ Hs]]; [|cbn [starts_with_dash] in Hs; congruence].
      constructor.
      * intros E'. apply Hcur. destruct cur as [|a cur]; [reflexivity|].
        cbn [rev] in E'. now destruct (rev cur).
      * destruct s as [|b s].
        { unfold ends_with_dash in He. cbn [rev app] in He. congruence. }
        rewrite has_double_dash_cons, E in Hd. cbn [andb] in Hd.
        apply orb_false_iff in Hd. destruct Hd as [Hb Hd].
        apply IH; [right; split; [discriminate|exact Hb]|exact Hd|].
        now rewrite <- (ends_with_dash_cons c).
    + apply IH; [left; discriminate|now apply has_double_dash_tail in Hd|].
      destruct s as [|b s]; [reflexivity|].
      now rewrite <- (ends_with_dash_cons c).
Qed.

End Title.

(** X17: the words of the card title - the pieces of the curated name
    between dashes, which line 86 capitalises and joins with spaces - are
    runs of word characters of the app name: put end to end they are the
    word characters of the app name, all of them and in order, and unless
    the curated name is empty none of the words is empty. *)
Theorem title_words (U : Unicode) (app_name : str) :
  concat (split [dash] (curated_app_name U app_name))
  = filter (is_word U) app_name
  /\ Forall (fun piece => forallb (is_word U) piece = true)
            (split [dash] (curated_app_name U app_name))
  /\ (curated_app_name U app_name <> [] ->
      Forall (fun piece => piece <> [])
             (split [dash] (curated_app_name U app_name))).
Proof.
  assert (Hword : forall c, In c (curated_app_name U app_name) -> c <> dash ->
                            is_word U c = true).
  { intros c Hin Hc. apply curated_app_name_incl in Hin. tauto. }
  split; [|split].
  - unfold split. rewrite concat_split_dash. cbn [rev app].
    rewrite <- (filter_curated U app_name).
    apply filter_ext_in. intros c Hin.
    destruct (c =? dash)%N eqn:E; cbn [negb].
    + apply N.eqb_eq in E. subst c. symmetry. apply is_word_dash.
    + symmetry. apply Hword; [exact Hin|now apply N.eqb_neq].
  - apply Forall_forall. intros piece Hp. apply forallb_forall. intros c Hc.
    destruct (in_split_dash _ _ _ _ Hp Hc) as [[]|[Hin Hne]].
    now apply Hword.
  - intros Hne. destruct (curated_app_name_shape U app_name) as [Hd [Hs He]].
    unfold split. apply split_dash_nonempty; auto.
Qed.

Lemma title_words_witness :
  Forall (fun piece => piece <> [])
         (split [dash] (curated_app_name ascii_only (py "--my  demo_app!"))).
Proof.
  apply (title_words ascii_only (py "--my  demo_app!")).
  vm_compute. discriminate.
Defined.
